(** * Game of Life for the Commodore 64: a shallow embedding of src/src/main.c

    Memory is byte-addressed: every static array of the program ([buf0],
    [buf1], [screenBuf] and the C64 screen at $0400) is a function from an
    index to the byte stored there.  The pointer swap of the simulation loop
    exchanges the roles of [current] and [next]; the two buffers never alias,
    so the state keeps them as two fields and the swap exchanges the fields.
    A table lookup out of the 9 entries is undefined behaviour in C and
    makes the step fail ([None]).  src/unnamed/part_000 is an earlier
    revision of the same file; its [update_borders], [calc_next_gen],
    rule tables and [draw_preset] compute the same as main.c's. *)

From Stdlib Require Import ZArith List Bool Lia.
Import ListNotations.
Open Scope Z_scope.

(** ** Constants of main.c *)

Definition WIDTH : Z := 40.
Definition HEIGHT : Z := 25.
Definition BWIDTH : Z := WIDTH + 2.
Definition BHEIGHT : Z := HEIGHT + 2.

(** [#define IDX(y,x) ((y) * BWIDTH + (x))] *)
Definition IDX (y x : Z) : Z := y * BWIDTH + x.

Definition LIVE_CHAR : Z := 81. (* 0x51 *)
Definition DEAD_CHAR : Z := 32. (* ' ' *)

(** A byte array (or the memory behind a pointer). *)
Definition buf := Z -> Z.

(** [b[i] = v] *)
Definition upd (b : buf) (i v : Z) : buf :=
  fun j => if j =? i then v else b j.

(** [memcpy(b + dst, b + src, n)] inside one array, regions disjoint. *)
Definition memcpy_in (b : buf) (dst src n : Z) : buf :=
  fun j => if (dst <=? j) && (j <? dst + n) then b (src + (j - dst)) else b j.

(** [memcpy(dst, src, n)] between two distinct arrays, both at offset 0. *)
Definition memcpy_to (dst src : buf) (n : Z) : buf :=
  fun j => if (0 <=? j) && (j <? n) then src j else dst j.

(** [memset(b + off, c, n)] *)
Definition memset (b : buf) (off c n : Z) : buf :=
  fun j => if (off <=? j) && (j <? off + n) then c else b j.

(** The program's global state: [current], [next], [screenBuf] and the
    screen memory at $0400. *)
Record State := mkState {
  current : buf;
  next : buf;
  screenBuf : buf;
  screen : buf
}.

Definition set_current (s : State) (c : buf) : State :=
  mkState c (next s) (screenBuf s) (screen s).

(** [static unsigned char buf0[...], buf1[...]; screenBuf[...]]: static
    storage starts zeroed. *)
Definition init_state : State :=
  mkState (fun _ => 0) (fun _ => 0) (fun _ => 0) (fun _ => 0).

(** ** Rule tables *)

Definition next_from_dead : list Z := [0;0;0;1;0;0;0;0;0].
Definition next_from_alive : list Z := [0;0;1;1;0;0;0;0;0].

(** [tbl[n]] for a 9-entry array: out of range is undefined behaviour. *)
Definition lookup (tbl : list Z) (n : Z) : option Z :=
  if n <? 0 then None else nth_error tbl (Z.to_nat n).

(** ** update_borders *)

(** The horizontal-wrap loop:
    [for (int y = 1; y <= HEIGHT; ++y, row += BWIDTH)
       { row[0] = row[WIDTH]; row[BWIDTH - 1] = row[1]; }]
    with [row] an offset into [current]. *)
Fixpoint hwrap (n : nat) (y row : Z) (b : buf) : buf :=
  match n with
  | O => b
  | S n' =>
      let b1 := upd b row (b (row + WIDTH)) in
      let b2 := upd b1 (row + (BWIDTH - 1)) (b1 (row + 1)) in
      hwrap n' (y + 1) (row + BWIDTH) b2
  end.

Definition update_borders_buf (c : buf) : buf :=
  let c1 := hwrap (Z.to_nat HEIGHT) 1 (IDX 1 0) c in
  let c2 := memcpy_in c1 (IDX 0 0) (IDX HEIGHT 0) BWIDTH in
  memcpy_in c2 (IDX (BHEIGHT - 1) 0) (IDX 1 0) BWIDTH.

Definition update_borders (s : State) : State :=
  set_current s (update_borders_buf (current s)).

(** ** calc_next_gen *)

(** The sum of the eight neighbour cells of [cur[base + x]], as an [int]. *)
Definition neighbour_sum (cur : buf) (base x : Z) : Z :=
  cur (base - BWIDTH + x - 1) +
  cur (base - BWIDTH + x) +
  cur (base - BWIDTH + x + 1) +
  cur (base + x - 1) +
  cur (base + x + 1) +
  cur (base + BWIDTH + x - 1) +
  cur (base + BWIDTH + x) +
  cur (base + BWIDTH + x + 1).

(** [unsigned char neighbours = cur[..] + ... + cur[..];]  the sum is
    truncated to a byte. *)
Definition neighbours (cur : buf) (base x : Z) : Z :=
  neighbour_sum cur base x mod 256.

(** [v = alive ? next_from_alive[neighbours] : next_from_dead[neighbours]] *)
Definition next_value (cur : buf) (base x : Z) : option Z :=
  let n := neighbours cur base x in
  let alive := cur (base + x) in
  if alive =? 0 then lookup next_from_dead n else lookup next_from_alive n.

Definition glyph (v : Z) : Z := if v =? 0 then DEAD_CHAR else LIVE_CHAR.

(** The inner loop [for (int x = 1; x <= WIDTH; ++x)] over the pair
    ([next], [screenBuf]); [cur] is only read. *)
Fixpoint calc_row (n : nat) (cur : buf) (srow base x : Z) (nb : buf * buf)
  : option (buf * buf) :=
  match n with
  | O => Some nb
  | S n' =>
      match next_value cur base x with
      | None => None
      | Some v =>
          let nxt := upd (fst nb) (base + x) v in
          let sb := upd (snd nb) (srow + (x - 1)) (glyph v) in
          calc_row n' cur srow base (x + 1) (nxt, sb)
      end
  end.

(** The outer loop [for (int y = 1; y <= HEIGHT; ++y)]. *)
Fixpoint calc_rows (n : nat) (cur : buf) (y : Z) (nb : buf * buf)
  : option (buf * buf) :=
  match n with
  | O => Some nb
  | S n' =>
      match calc_row (Z.to_nat WIDTH) cur ((y - 1) * WIDTH) (y * BWIDTH) 1 nb with
      | None => None
      | Some nb' => calc_rows n' cur (y + 1) nb'
      end
  end.

Definition calc_next_gen (s : State) : option State :=
  match calc_rows (Z.to_nat HEIGHT) (current s) 1 (next s, screenBuf s) with
  | None => None
  | Some (nxt, sb) => Some (mkState (current s) nxt sb (screen s))
  end.

(** [{ unsigned char *tmp = current; current = next; next = tmp; }] *)
Definition swap (s : State) : State :=
  mkState (next s) (current s) (screenBuf s) (screen s).

(** [memcpy(screen, screenBuf, WIDTH * HEIGHT)] *)
Definition update_display (s : State) : State :=
  mkState (current s) (next s) (screenBuf s)
    (memcpy_to (screen s) (screenBuf s) (WIDTH * HEIGHT)).

(** One generation: mirror borders, compute the next generation, swap. *)
Definition gen_step (s : State) : option State :=
  match calc_next_gen (update_borders s) with
  | None => None
  | Some s' => Some (swap s')
  end.

Fixpoint gen_steps (n : nat) (s : State) : option State :=
  match n with
  | O => Some s
  | S n' => match gen_step s with None => None | Some s' => gen_steps n' s' end
  end.

(** One iteration of the simulation loop of [main]. *)
Definition sim_cycle (s : State) : option State :=
  gen_step (update_display s).

(** ** Seeding and editing *)

(** [build_screen_from_current]: one glyph per logical cell. *)
Fixpoint screen_row (n : nat) (cur : buf) (srow y x : Z) (sb : buf) : buf :=
  match n with
  | O => sb
  | S n' => screen_row n' cur srow y (x + 1)
              (upd sb (srow + (x - 1)) (glyph (cur (IDX y x))))
  end.

Fixpoint screen_rows (n : nat) (cur : buf) (y : Z) (sb : buf) : buf :=
  match n with
  | O => sb
  | S n' => screen_rows n' cur (y + 1)
              (screen_row (Z.to_nat WIDTH) cur ((y - 1) * WIDTH) y 1 sb)
  end.

Definition build_screen_from_current (s : State) : State :=
  mkState (current s) (next s)
    (screen_rows (Z.to_nat HEIGHT) (current s) 1 (screenBuf s)) (screen s).

(** [initialize_grid_random]: the successive results of [rand()] are the
    stream [rnd]; [k] counts the calls made so far.  The seed read from the
    raster register only selects the stream. *)
Fixpoint random_row (n : nat) (rnd : nat -> Z) (k : nat) (srow y x : Z)
  (cb : buf * buf) : nat * (buf * buf) :=
  match n with
  | O => (k, cb)
  | S n' =>
      let v := Z.land (rnd k) 1 mod 256 in
      random_row n' rnd (S k) srow y (x + 1)
        (upd (fst cb) (IDX y x) v, upd (snd cb) (srow + (x - 1)) (glyph v))
  end.

Fixpoint random_rows (n : nat) (rnd : nat -> Z) (k : nat) (y : Z)
  (cb : buf * buf) : buf * buf :=
  match n with
  | O => cb
  | S n' =>
      let '(k', cb') := random_row (Z.to_nat WIDTH) rnd k ((y - 1) * WIDTH) y 1 cb in
      random_rows n' rnd k' (y + 1) cb'
  end.

Definition initialize_grid_random (rnd : nat -> Z) (s : State) : State :=
  let c := memset (current s) 0 0 (BHEIGHT * BWIDTH) in
  let '(c', sb') := random_rows (Z.to_nat HEIGHT) rnd O 1 (c, screenBuf s) in
  mkState c' (next s) sb' (screen s).

(** [for (int y = 0; y < HEIGHT; ++y) memset(screenBuf + y * WIDTH, DEAD_CHAR, WIDTH);] *)
Fixpoint blank_rows (n : nat) (y : Z) (sb : buf) : buf :=
  match n with
  | O => sb
  | S n' => blank_rows n' (y + 1) (memset sb (y * WIDTH) DEAD_CHAR WIDTH)
  end.

(** [clear_grid] *)
Definition clear_grid (s : State) : State :=
  update_display
    (mkState (memset (current s) 0 0 (BHEIGHT * BWIDTH)) (next s)
       (blank_rows (Z.to_nat HEIGHT) 0 (screenBuf s)) (screen s)).

(** The editor's SPACE key at cursor ([cy], [cx]). *)
Definition toggle_cell (cy cx : Z) (s : State) : State :=
  let pos := (cy - 1) * WIDTH + (cx - 1) in
  let v := Z.lxor (current s (IDX cy cx)) 1 mod 256 in
  let c := upd (current s) (IDX cy cx) v in
  let sb := upd (screenBuf s) pos (glyph v) in
  mkState c (next s) sb (upd (screen s) pos (sb pos)).

(** [for (int x = 1; x <= WIDTH; ++x) current[IDX(cy,x)] = 0;] *)
Fixpoint zero_row (n : nat) (cy x : Z) (c : buf) : buf :=
  match n with
  | O => c
  | S n' => zero_row n' cy (x + 1) (upd c (IDX cy x) 0)
  end.

(** The editor's C key on cursor row [cy]. *)
Definition clear_row (cy : Z) (s : State) : State :=
  let c := zero_row (Z.to_nat WIDTH) cy 1 (current s) in
  let sb := memset (screenBuf s) ((cy - 1) * WIDTH) DEAD_CHAR WIDTH in
  let scr := fun j => if ((cy - 1) * WIDTH <=? j) && (j <? (cy - 1) * WIDTH + WIDTH)
                      then sb j else screen s j in
  mkState c (next s) sb scr.

(** ** Presets *)

(** A pattern is the list of its [(dx, dy)] points. *)
Definition P_BLOCK : list (Z * Z) := [(0,0);(1,0);(0,1);(1,1)].
Definition P_BLINKER : list (Z * Z) := [(0,0);(1,0);(2,0)].
Definition P_GLIDER : list (Z * Z) := [(1,0);(2,1);(0,2);(1,2);(2,2)].

(** One iteration of the loop of [draw_preset]. *)
Definition stamp_point (y0 x0 : Z) (s : State) (p : Z * Z) : State :=
  let y := y0 + snd p in
  let x := x0 + fst p in
  if (1 <=? y) && (y <=? HEIGHT) && (1 <=? x) && (x <=? WIDTH) then
    mkState (upd (current s) (IDX y x) 1) (next s)
      (upd (screenBuf s) ((y - 1) * WIDTH + (x - 1)) LIVE_CHAR) (screen s)
  else s.

(** [draw_preset(y0, x0, pts, n)] *)
Definition draw_preset (y0 x0 : Z) (pts : list (Z * Z)) (s : State) : State :=
  update_display (fold_left (stamp_point y0 x0) pts s).

(** ** The rule on the logical torus

    A reference for the generation step: a logical grid maps (x, y) with
    [0 <= x < 40], [0 <= y < 25] to 0 or 1; neighbours wrap around. *)

Definition grid := Z -> Z -> Z.

(** The logical cells of a bordered buffer: (x, y) sits at (x+1, y+1). *)
Definition logical (b : buf) : grid := fun x y => b (IDX (y + 1) (x + 1)).

(** The cell at offset (dx, dy) from (x, y), wrapping around. *)
Definition nb (g : grid) (x y dx dy : Z) : Z :=
  g ((x + dx) mod WIDTH) ((y + dy) mod HEIGHT).

Definition torus_sum (g : grid) (x y : Z) : Z :=
  nb g x y (-1) (-1) + nb g x y 0 (-1) + nb g x y 1 (-1) +
  nb g x y (-1) 0 + nb g x y 1 0 +
  nb g x y (-1) 1 + nb g x y 0 1 + nb g x y 1 1.

(** B3/S23: born with 3 neighbours, survives with 2 or 3. *)
Definition b3s23 (alive n : Z) : Z :=
  if (n =? 3) || ((alive =? 1) && (n =? 2)) then 1 else 0.

Definition life (g : grid) : grid :=
  fun x y => b3s23 (nb g x y 0 0) (torus_sum g x y).

Fixpoint life_n (n : nat) (g : grid) : grid :=
  match n with O => g | S n' => life_n n' (life g) end.

(** The grid whose live cells are the points of [pts] anchored at
    (x0, y0), modulo the grid size. *)
Definition pattern (pts : list (Z * Z)) (x0 y0 : Z) : grid :=
  fun x y =>
    if existsb (fun p => ((x0 + fst p) mod WIDTH =? x) &&
                         ((y0 + snd p) mod HEIGHT =? y)) pts
    then 1 else 0.

Definition in_grid (x y : Z) : Prop := 0 <= x < WIDTH /\ 0 <= y < HEIGHT.

(** Two logical grids agree on every logical cell. *)
Definition same_cells (g h : grid) : Prop :=
  forall x y, in_grid x y -> g x y = h x y.

Definition binary (v : Z) : Prop := v = 0 \/ v = 1.

(** The vertical blinker through the middle cell of [P_BLINKER]. *)
Definition VBLINKER : list (Z * Z) := [(1,-1);(1,0);(1,1)].

(** The intermediate phases of [P_GLIDER]. *)
Definition GLIDER1 : list (Z * Z) := [(0,1);(2,1);(1,2);(2,2);(1,3)].
Definition GLIDER2 : list (Z * Z) := [(2,1);(0,2);(2,2);(1,3);(2,3)].
Definition GLIDER3 : list (Z * Z) := [(1,1);(2,2);(3,2);(1,3);(2,3)].

(** [g] moved by (a, b) on the torus. *)
Definition shift (g : grid) (a b : Z) : grid :=
  fun x y => g ((x - a) mod WIDTH) ((y - b) mod HEIGHT).

Definition zrange (n : nat) : list Z := map Z.of_nat (seq 0 n).

(** Decides [same_cells] by visiting the 40 x 25 logical cells. *)
Definition check_cells (g h : grid) : bool :=
  forallb (fun x => forallb (fun y => g x y =? h x y) (zrange (Z.to_nat HEIGHT)))
    (zrange (Z.to_nat WIDTH)).

(** The value [calc_next_gen] writes for column [x] of the row at
    [base], when the table lookup is defined. *)
Definition rule_val (cur : buf) (base x : Z) : Z :=
  match next_value cur base x with Some v => v | None => 0 end.

(** Whether [draw_preset y0 x0] writes point [p] at index [i] of
    [current]. *)
Definition stamps (y0 x0 i : Z) (p : Z * Z) : bool :=
  let y := y0 + snd p in
  let x := x0 + fst p in
  (1 <=? y) && (y <=? HEIGHT) && (1 <=? x) && (x <=? WIDTH) && (IDX y x =? i).

(** Every byte of a bordered grid buffer holds 0 or 1. *)
Definition buf_binary (b : buf) : Prop :=
  forall i, 0 <= i < BHEIGHT * BWIDTH -> binary (b i).

Definition binary_state (s : State) : Prop :=
  buf_binary (current s) /\ buf_binary (next s).

(** The states the program can reach from its static initial state by the
    operations that write the grids or the display: random seeding,
    clearing, the editor's toggle and row clear, preset stamping, the
    display copies, and the three parts of a generation. *)
Inductive reachable : State -> Prop :=
  | reach_init : reachable init_state
  | reach_random rnd s : reachable s -> reachable (initialize_grid_random rnd s)
  | reach_clear s : reachable s -> reachable (clear_grid s)
  | reach_toggle cy cx s : reachable s -> reachable (toggle_cell cy cx s)
  | reach_clear_row cy s : reachable s -> reachable (clear_row cy s)
  | reach_preset y0 x0 pts s : reachable s -> reachable (draw_preset y0 x0 pts s)
  | reach_build_screen s : reachable s -> reachable (build_screen_from_current s)
  | reach_display s : reachable s -> reachable (update_display s)
  | reach_borders s : reachable s -> reachable (update_borders s)
  | reach_calc s s' : reachable s -> calc_next_gen s = Some s' -> reachable s'
  | reach_swap s : reachable s -> reachable (swap s).

(** The wrap of one physical coordinate of the bordered grid: border
    index 0 is the last interior index [n], border index [n+1] is 1. *)
Definition wrap_coord (n v : Z) : Z :=
  if v =? 0 then n else if v =? n + 1 then 1 else v.

(** ** Charset, editor, menus and [main]

    The library routines the program calls are not part of it: conio's
    [clrscr] and the text output of [gotoxy(0,0)] and the [printf] calls
    of one menu act on the screen memory only, and [rand()] after
    [srand(seed)] gives a sequence of results fixed by the seed.  They are
    the fields of a [Lib]. *)
Record Lib := mkLib {
  clrscr : buf -> buf;
  print_text : Z -> buf -> buf;  (* 0: main menu, 1: presets menu, 2: goodbye *)
  rand_seq : Z -> nat -> Z
}.

(** The program state together with the VIC register $D018, whose bit 1
    selects the lower/uppercase character set. *)
Record Machine := mkMachine { st : State; d018 : Z }.

Definition set_screen (s : State) (scr : buf) : State :=
  mkState (current s) (next s) (screenBuf s) scr.

Definition on_st (f : State -> State) (m : Machine) : Machine :=
  mkMachine (f (st m)) (d018 m).

Definition on_screen (f : buf -> buf) (m : Machine) : Machine :=
  on_st (fun s => set_screen s (f (screen s))) m.

(** [*D018 = (unsigned char)( *D018 & ~0x02);] *)
Definition set_uppercase (m : Machine) : Machine :=
  mkMachine (st m) (Z.land (d018 m) (Z.lnot 2) mod 256).

(** [*D018 = (unsigned char)( *D018 | 0x02);] *)
Definition set_lowercase (m : Machine) : Machine :=
  mkMachine (st m) (Z.lor (d018 m) 2 mod 256).

(** PETSCII cursor keys. *)
Definition KEY_RIGHT : Z := 29.  (* 0x1D *)
Definition KEY_LEFT : Z := 157.  (* 0x9D *)
Definition KEY_DOWN : Z := 17.   (* 0x11 *)
Definition KEY_UP : Z := 145.    (* 0x91 *)

(** [int pos = (cy - 1) * WIDTH + (cx - 1);] *)
Definition cursor_pos (cx cy : Z) : Z := (cy - 1) * WIDTH + (cx - 1).

(** The cursor cases of the [switch (key)] of [draw_editor]. *)
Definition move_cursor (key cx cy : Z) : Z * Z :=
  if key =? KEY_UP then (cx, if cy >? 1 then cy - 1 else HEIGHT)
  else if key =? KEY_DOWN then (cx, if cy <? HEIGHT then cy + 1 else 1)
  else if key =? KEY_LEFT then (if cx >? 1 then cx - 1 else WIDTH, cy)
  else if key =? KEY_RIGHT then (if cx <? WIDTH then cx + 1 else 1, cy)
  else (cx, cy).

(** The [switch (key)] of [draw_editor] (character literals have their
    ASCII codes): [inl] continues the loop with the new state and cursor,
    [inr] is the state when [draw_editor] returns. *)
Definition editor_key (key cx cy : Z) (s : State) : (State * (Z * Z)) + State :=
  if key =? 32 then inl (toggle_cell cy cx s, (cx, cy))
  else if (key =? 120) || (key =? 88) then inl (clear_grid s, (cx, cy))
  else if (key =? 99) || (key =? 67) then inl (clear_row cy s, (cx, cy))
  else if (key =? 13) || (key =? 10) then
    inr (update_display (build_screen_from_current s))
  else inl (s, move_cursor key cx cy).

(** The fourth preset, anchored at (3, 2). *)
Definition P_GGUN : list (Z * Z) :=
  [(0,4);(1,4);(0,5);(1,5);
   (10,4);(10,5);(10,6);(11,3);(11,7);(12,2);(12,8);(13,2);(13,8);(14,5);
   (15,3);(15,7);(16,4);(16,5);(16,6);(17,5);
   (20,2);(20,3);(20,4);(21,2);(21,3);(21,4);(22,1);(22,5);(24,0);(24,1);
   (24,5);(24,6);
   (34,2);(34,3);(35,2);(35,3)].

(** [show_presets_menu] after its [getch()]: the [switch (key)] and the
    final [build_screen_from_current(); update_display();]. *)
Definition presets_key (key : Z) (s : State) : State :=
  let cx := Z.quot WIDTH 2 in
  let cy := Z.quot HEIGHT 2 in
  let s1 :=
    if (key =? 98) || (key =? 66) then draw_preset cy cx P_BLOCK (clear_grid s)
    else if (key =? 110) || (key =? 78) then
      draw_preset cy (cx - 1) P_BLINKER (clear_grid s)
    else if (key =? 103) || (key =? 71) then
      draw_preset (cy - 1) (cx - 1) P_GLIDER (clear_grid s)
    else if (key =? 117) || (key =? 85) then draw_preset 3 2 P_GGUN (clear_grid s)
    else s in
  update_display (build_screen_from_current s1).

(** The points where the program waits for an input: the [getch()] of the
    main menu, the raster read of [initialize_grid_random], the [getch()]
    of the editor (cursor at ([cx], [cy]), [orig] the saved screen code of
    the highlighted cell), the [getch()] of the presets menu, the [kbhit()]
    that ends an iteration of the simulation loop (before the iteration
    runs) and the [getch()] after it; [PDone] is the end of [main] and
    [PFault] an undefined table lookup. *)
Inductive PC :=
  | PMenu | PRandom | PEditor (cx cy orig : Z) | PPresets
  | PSim | PSimKey | PDone | PFault.

(** The answer of [getch()], of the raster register, or of [kbhit()]. *)
Inductive Input := Key (k : Z) | Raster (r : Z) | Kbhit (hit : bool).

Record Config := mkConfig { pc : PC; mach : Machine }.

(** Entry of [show_main_menu]: [set_lowercase(); clrscr(); gotoxy(0,0);
    printf(...)]. *)
Definition menu_entry (lib : Lib) (m : Machine) : Config :=
  mkConfig PMenu (on_screen (fun b => print_text lib 0 (clrscr lib b)) (set_lowercase m)).

(** Before the simulation loop: [clrscr(); set_uppercase();
    build_screen_from_current(); update_display();]. *)
Definition sim_prepare (lib : Lib) (m : Machine) : Config :=
  mkConfig PSim
    (on_st (fun s => update_display (build_screen_from_current s))
       (set_uppercase (on_screen (clrscr lib) m))).

(** Top of the editor loop: save the screen code under the cursor and
    set its reverse bit, then wait for a key. *)
Definition editor_top (cx cy : Z) (m : Machine) : Config :=
  let pos := cursor_pos cx cy in
  let orig := screen (st m) pos in
  mkConfig (PEditor cx cy orig) (on_screen (fun b => upd b pos (Z.lor orig 128 mod 256)) m).

(** [draw_editor] up to its first [getch()]. *)
Definition editor_entry (m : Machine) : Config :=
  editor_top (Z.quot WIDTH 2) (Z.quot HEIGHT 2)
    (on_st (fun s => update_display (build_screen_from_current s)) (set_uppercase m)).

(** One input consumed by [main]; [None] when the program does not wait
    for that kind of input at this point. *)
Definition step (lib : Lib) (i : Input) (c : Config) : option Config :=
  let m := mach c in
  match pc c, i with
  | PMenu, Key k =>
      let key := k mod 256 in
      if key =? 49 then Some (mkConfig PRandom m)
      else if key =? 50 then Some (editor_entry (on_st clear_grid m))
      else if key =? 51 then
        Some (mkConfig PPresets (on_screen (fun b => print_text lib 1 (clrscr lib b)) m))
      else if key =? 52 then
        Some (mkConfig PDone
                (on_screen (fun b => print_text lib 2 (clrscr lib b)) (set_uppercase m)))
      else Some c
  | PRandom, Raster r =>
      Some (sim_prepare lib (on_st (initialize_grid_random (rand_seq lib (r mod 256))) m))
  | PEditor cx cy orig, Key k =>
      let m1 := on_screen (fun b => upd b (cursor_pos cx cy) orig) m in
      match editor_key (k mod 256) cx cy (st m1) with
      | inl (s', (cx', cy')) => Some (editor_top cx' cy' (mkMachine s' (d018 m1)))
      | inr s' => Some (sim_prepare lib (mkMachine s' (d018 m1)))
      end
  | PPresets, Key k => Some (sim_prepare lib (on_st (presets_key (k mod 256)) m))
  | PSim, Kbhit hit =>
      match sim_cycle (st m) with
      | None => Some (mkConfig PFault m)
      | Some s' => Some (mkConfig (if hit then PSimKey else PSim) (mkMachine s' (d018 m)))
      end
  | PSimKey, Key _ => Some (menu_entry lib m)
  | _, _ => None
  end.

(** [main] from its start, with $D018 holding [d]; [set_colours] writes
    only colour registers. *)
Definition start (lib : Lib) (d : Z) : Config := menu_entry lib (mkMachine init_state d).

Fixpoint run (lib : Lib) (l : list Input) (c : Config) : option Config :=
  match l with
  | [] => Some c
  | i :: l' => match step lib i c with None => None | Some c' => run lib l' c' end
  end.

(** The display buffer holds the glyph of every logical cell of
    [current]. *)
Definition buf_shows (s : State) : Prop :=
  forall x y, in_grid x y ->
    screenBuf s (y * WIDTH + x) = glyph (current s (IDX (y + 1) (x + 1))).

(** The screen holds the display buffer. *)
Definition screen_shows (s : State) : Prop :=
  forall x y, in_grid x y -> screen s (y * WIDTH + x) = screenBuf s (y * WIDTH + x).


(** The bordered buffer [c] holds exactly the points [pts] stamped at
    anchor ([y0], [x0]): 1 at those cells, 0 everywhere else. *)
Definition holds_exactly (c : buf) (y0 x0 : Z) (pts : list (Z * Z)) : Prop :=
  forall i, 0 <= i < BHEIGHT * BWIDTH -> c i = if existsb (stamps y0 x0 i) pts then 1 else 0.

(** No point of [pts] anchored at ([y0], [x0]) falls outside the grid. *)
Definition unclipped (y0 x0 : Z) (pts : list (Z * Z)) : Prop :=
  Forall (fun p => 1 <= y0 + snd p <= HEIGHT /\ 1 <= x0 + fst p <= WIDTH) pts.

(** The screen holds the display buffer, except at the editor's cursor,
    which shows [orig] in reverse video. *)
Definition editor_screen (cx cy orig : Z) (s : State) : Prop :=
  forall x y, in_grid x y ->
    screen s (y * WIDTH + x) =
    if y * WIDTH + x =? cursor_pos cx cy then Z.lor orig 128 mod 256
    else screenBuf s (y * WIDTH + x).

(** What holds at each control point of [main]. *)
Definition config_inv (c : Config) : Prop :=
  binary_state (st (mach c)) /\
  match pc c with
  | PMenu | PRandom | PPresets => Z.testbit (d018 (mach c)) 1 = true
  | PEditor cx cy orig =>
      Z.testbit (d018 (mach c)) 1 = false /\ 1 <= cx <= WIDTH /\ 1 <= cy <= HEIGHT /\
      buf_shows (st (mach c)) /\ orig = screenBuf (st (mach c)) (cursor_pos cx cy) /\
      editor_screen cx cy orig (st (mach c))
  | PSim | PSimKey => Z.testbit (d018 (mach c)) 1 = false /\ buf_shows (st (mach c))
  | PDone => Z.testbit (d018 (mach c)) 1 = false
  | PFault => False
  end.

(** A library for concrete runs: [clrscr] and [printf] leave the screen
    as it is, and the n-th [rand] after [srand(seed)] is seed + n. *)
Definition stub_lib : Lib :=
  mkLib (fun b => b) (fun _ b => b) (fun seed n => seed + Z.of_nat n).

(** The grid of the presets menu's N key: the blinker [P_BLINKER] stamped
    at row 12, column 19 of a cleared grid. *)
Definition blinker_state : State := draw_preset 12 19 P_BLINKER (clear_grid init_state).

(** The glider of the presets menu's G key stamped at rows 23..25, across
    the wrap-around seam, with its borders mirrored: the state of the
    first [calc_next_gen] of the simulation loop. *)
Definition seam_glider : State :=
  update_borders (draw_preset 23 19 P_GLIDER (clear_grid init_state)).

(** The state of the second [calc_next_gen] of the simulation loop from
    [seam_glider]: after the swap, [next] holds the first grid with its
    mirrored border cells. *)
Definition seam_glider_next : State :=
  update_borders
    (match calc_next_gen seam_glider with Some t => swap t | None => seam_glider end).

(** A [rand] sequence for concrete runs. *)
Definition chain_rnd (n : nat) : Z := Z.of_nat n * 5 / 3.

(** A state reached through every operation that writes the grid:
    clearing, random seeding, a preset, an editor toggle and row clear,
    building and showing the screen, mirroring the borders, one
    [calc_next_gen] and the swap. *)
Definition chain_start : State :=
  update_borders (update_display (build_screen_from_current (clear_row 3 (toggle_cell 5 5
    (draw_preset 12 19 P_BLINKER (initialize_grid_random chain_rnd (clear_grid init_state))))))).

Definition chain_state : State :=
  match calc_next_gen chain_start with Some t => swap t | None => chain_start end.

(** ** Proofs *)

Ltac zsplit :=
  repeat match goal with
  | |- context [Z.eqb ?a ?b] => destruct (Z.eqb_spec a b)
  | |- context [Z.leb ?a ?b] => destruct (Z.leb_spec a b)
  | |- context [Z.ltb ?a ?b] => destruct (Z.ltb_spec a b)
  end; cbn [andb orb negb].

Ltac zsolve := try lia; try reflexivity; try (f_equal; lia); try (f_equal; f_equal; lia).

Ltac unfold_consts :=
  unfold IDX, BWIDTH, BHEIGHT, WIDTH, HEIGHT in *.

(** [zsplit], splitting the order tests first. *)
Ltac zsplit_lt :=
  repeat match goal with
  | |- context [Z.leb ?a ?b] => destruct (Z.leb_spec a b)
  | |- context [Z.ltb ?a ?b] => destruct (Z.ltb_spec a b)
  end; cbn [andb orb negb]; zsplit.

Module Borders.

Lemma hwrap_at (n : nat) : forall y row b i py px,
  row = IDX y 0 -> i = IDX py px -> 0 <= px < BWIDTH ->
  hwrap n y row b i =
  if (y <=? py) && (py <? y + Z.of_nat n) then
    (if px =? 0 then b (IDX py WIDTH)
     else if px =? BWIDTH - 1 then b (IDX py 1) else b i)
  else b i.
Proof.
  induction n as [|n IH]; intros y row b i py px Hrow Hi Hpx.
  - cbn [hwrap]. zsplit; zsolve.
  - cbn [hwrap]. rewrite (IH (y + 1) _ _ i py px); [| unfold_consts; lia | exact Hi | exact Hpx].
    subst. unfold upd. unfold_consts. zsplit; zsolve.
Qed.

(** Every physical cell of the mirrored buffer is read from its wrapped
    interior cell. *)
Lemma update_borders_buf_at (c : buf) (py px : Z) :
  0 <= py < BHEIGHT -> 0 <= px < BWIDTH ->
  update_borders_buf c (IDX py px) =
  c (IDX (wrap_coord HEIGHT py) (wrap_coord WIDTH px)).
Proof.
  intros Hy Hx. unfold update_borders_buf, memcpy_in.
  zsplit; unfold_consts; try lia;
  first
    [ rewrite (hwrap_at _ 1 _ c _ 1 px) by (unfold_consts; lia)
    | rewrite (hwrap_at _ 1 _ c _ 25 px) by (unfold_consts; lia)
    | rewrite (hwrap_at _ 1 _ c _ py px) by (unfold_consts; lia) ];
  unfold wrap_coord; unfold_consts; zsplit; zsolve.
Qed.

End Borders.

Module Step.

Lemma calc_row_spec (n : nat) : forall cur srow base x nb,
  (forall k, x <= k < x + Z.of_nat n -> next_value cur base k <> None) ->
  exists nxt sb, calc_row n cur srow base x nb = Some (nxt, sb) /\
    (forall j, nxt j = if (base + x <=? j) && (j <? base + x + Z.of_nat n)
                       then rule_val cur base (j - base) else fst nb j) /\
    (forall j, sb j = if (srow + x - 1 <=? j) && (j <? srow + x - 1 + Z.of_nat n)
                      then glyph (rule_val cur base (j - srow + 1)) else snd nb j).
Proof.
  induction n as [|n IH]; intros cur srow base x nb Hok.
  - exists (fst nb), (snd nb). destruct nb. split; [reflexivity|].
    split; intro j; zsplit; zsolve.
  - cbn [calc_row].
    destruct (next_value cur base x) as [v|] eqn:Hv;
      [| exfalso; apply (Hok x); [lia | exact Hv]].
    destruct (IH cur srow base (x + 1)
                (upd (fst nb) (base + x) v, upd (snd nb) (srow + (x - 1)) (glyph v)))
      as (nxt & sb & Hrun & Hn & Hs).
    { intros k Hk. apply Hok. lia. }
    exists nxt, sb. split; [exact Hrun|]. split; intro j.
    + rewrite Hn. cbn [fst]. unfold upd. zsplit; zsolve.
      * unfold rule_val. replace (j - base) with x by lia. rewrite Hv. reflexivity.
    + rewrite Hs. cbn [snd]. unfold upd. zsplit; zsolve.
      * unfold rule_val. replace (j - srow + 1) with x by lia. rewrite Hv. reflexivity.
Qed.

Lemma calc_rows_spec (n : nat) : forall cur y nb,
  (forall py px, y <= py < y + Z.of_nat n -> 1 <= px <= WIDTH ->
     next_value cur (py * BWIDTH) px <> None) ->
  exists nxt sb, calc_rows n cur y nb = Some (nxt, sb) /\
    (forall py px, 0 <= px < BWIDTH ->
       nxt (IDX py px) =
       if (y <=? py) && (py <? y + Z.of_nat n) && (1 <=? px) && (px <=? WIDTH)
       then rule_val cur (py * BWIDTH) px else fst nb (IDX py px)) /\
    (forall ly lx, 0 <= lx < WIDTH ->
       sb (ly * WIDTH + lx) =
       if (y - 1 <=? ly) && (ly <? y - 1 + Z.of_nat n)
       then glyph (rule_val cur ((ly + 1) * BWIDTH) (lx + 1))
       else snd nb (ly * WIDTH + lx)).
Proof.
  induction n as [|n IH]; intros cur y nb Hok.
  - exists (fst nb), (snd nb). destruct nb. split; [reflexivity|].
    split; intros; zsplit; zsolve.
  - cbn [calc_rows].
    destruct (calc_row_spec (Z.to_nat WIDTH) cur ((y - 1) * WIDTH) (y * BWIDTH) 1 nb)
      as (rn & rs & Hrow & Hrn & Hrs).
    { intros k Hk. apply Hok; unfold_consts; lia. }
    rewrite Hrow.
    destruct (IH cur (y + 1) (rn, rs)) as (nxt & sb & Hrun & Hn & Hs).
    { intros py px Hpy Hpx. apply Hok; [lia | exact Hpx]. }
    exists nxt, sb. split; [exact Hrun|]. split.
    + intros py px Hpx. rewrite Hn by exact Hpx. cbn [fst]. rewrite Hrn.
      change (Z.of_nat (Z.to_nat WIDTH)) with 40.
      unfold_consts. zsplit; zsolve.
    + intros ly lx Hlx. rewrite Hs by exact Hlx. cbn [snd]. rewrite Hrs.
      change (Z.of_nat (Z.to_nat WIDTH)) with 40.
      unfold_consts. zsplit; zsolve.
Qed.

(** [calc_next_gen] writes the interior of [next] and all of [screenBuf];
    it reads [current] only. *)
Lemma calc_next_gen_spec (s : State) :
  (forall py px, 1 <= py <= HEIGHT -> 1 <= px <= WIDTH ->
     next_value (current s) (py * BWIDTH) px <> None) ->
  exists s', calc_next_gen s = Some s' /\
    current s' = current s /\ screen s' = screen s /\
    (forall py px, 0 <= px < BWIDTH ->
       next s' (IDX py px) =
       if (1 <=? py) && (py <=? HEIGHT) && (1 <=? px) && (px <=? WIDTH)
       then rule_val (current s) (py * BWIDTH) px else next s (IDX py px)) /\
    (forall ly lx, 0 <= lx < WIDTH ->
       screenBuf s' (ly * WIDTH + lx) =
       if (0 <=? ly) && (ly <? HEIGHT)
       then glyph (rule_val (current s) ((ly + 1) * BWIDTH) (lx + 1))
       else screenBuf s (ly * WIDTH + lx)).
Proof.
  intros Hok. unfold calc_next_gen.
  destruct (calc_rows_spec (Z.to_nat HEIGHT) (current s) 1 (next s, screenBuf s))
    as (nxt & sb & Hrun & Hn & Hs).
  { intros py px Hpy Hpx. apply Hok; [unfold_consts; lia | exact Hpx]. }
  rewrite Hrun. eexists. split; [reflexivity|]. cbn [current screen next screenBuf].
  split; [reflexivity|]. split; [reflexivity|]. split.
  - intros py px Hpx. rewrite Hn by exact Hpx. cbn [fst].
    change (Z.of_nat (Z.to_nat HEIGHT)) with 25. unfold_consts. zsplit; zsolve.
  - intros ly lx Hlx. rewrite Hs by exact Hlx. cbn [snd].
    change (Z.of_nat (Z.to_nat HEIGHT)) with 25. unfold_consts. zsplit; zsolve.
Qed.

Lemma calc_row_defined (n : nat) : forall cur srow base x nb r,
  calc_row n cur srow base x nb = Some r ->
  forall k, x <= k < x + Z.of_nat n -> next_value cur base k <> None.
Proof.
  induction n as [|n IH]; intros cur srow base x nb r Hrun k Hk; [lia|].
  cbn [calc_row] in Hrun.
  destruct (next_value cur base x) as [v|] eqn:Hv; [|discriminate].
  destruct (Z.eq_dec k x) as [->|Hne]; [rewrite Hv; discriminate|].
  eapply IH; [exact Hrun | lia].
Qed.

Lemma calc_rows_defined (n : nat) : forall cur y nb r,
  calc_rows n cur y nb = Some r ->
  forall py px, y <= py < y + Z.of_nat n -> 1 <= px <= WIDTH ->
  next_value cur (py * BWIDTH) px <> None.
Proof.
  induction n as [|n IH]; intros cur y nb r Hrun py px Hpy Hpx; [lia|].
  cbn [calc_rows] in Hrun.
  destruct (calc_row _ cur _ _ 1 nb) as [r1|] eqn:Hrow; [|discriminate].
  destruct (Z.eq_dec py y) as [->|Hne].
  - eapply calc_row_defined; [exact Hrow |]. change (Z.of_nat (Z.to_nat WIDTH)) with 40.
    unfold WIDTH in Hpx. lia.
  - eapply IH; [exact Hrun | lia | exact Hpx].
Qed.

(** A run of [calc_next_gen] that succeeds made every lookup defined. *)
Lemma calc_next_gen_defined (s s' : State) :
  calc_next_gen s = Some s' ->
  forall py px, 1 <= py <= HEIGHT -> 1 <= px <= WIDTH ->
  next_value (current s) (py * BWIDTH) px <> None.
Proof.
  unfold calc_next_gen. intros Hrun py px Hpy Hpx.
  destruct (calc_rows _ _ _ _) as [r|] eqn:Hr; [|discriminate].
  eapply calc_rows_defined; [exact Hr | | exact Hpx].
  change (Z.of_nat (Z.to_nat HEIGHT)) with 25. unfold HEIGHT in Hpy. lia.
Qed.

(** The two tables give the B3/S23 rule for a 0/1 cell and a sum 0..8. *)
Lemma tables_b3s23 (alive n : Z) : binary alive -> 0 <= n <= 8 ->
  (if alive =? 0 then lookup next_from_dead n else lookup next_from_alive n) =
  Some (b3s23 alive n).
Proof.
  intros [-> | ->] Hn;
  assert (n = 0 \/ n = 1 \/ n = 2 \/ n = 3 \/ n = 4 \/ n = 5 \/ n = 6 \/ n = 7 \/ n = 8)
    as Hc by lia;
  repeat destruct Hc as [-> | Hc]; subst; reflexivity.
Qed.

Lemma binary_range (v : Z) : binary v -> 0 <= v <= 1.
Proof. intros [-> | ->]; lia. Qed.

(** With the nine cells it reads all 0 or 1, the lookup of [calc_next_gen]
    is defined and gives B3/S23 of the raw neighbour sum. *)
Lemma next_value_binary (cur : buf) (base x : Z) :
  (forall i, base - BWIDTH + x - 1 <= i <= base + BWIDTH + x + 1 -> binary (cur i)) ->
  0 <= neighbour_sum cur base x <= 8 /\
  next_value cur base x = Some (b3s23 (cur (base + x)) (neighbour_sum cur base x)).
Proof.
  intros Hb.
  assert (Hs : 0 <= neighbour_sum cur base x <= 8).
  { unfold neighbour_sum.
    repeat match goal with
    | |- context [cur ?i] =>
        let H := fresh in
        assert (H := binary_range _ (Hb i ltac:(unfold BWIDTH, WIDTH; lia)));
        generalize dependent (cur i); intros
    end; lia. }
  split; [exact Hs|].
  unfold next_value, neighbours. rewrite Z.mod_small by lia.
  apply tables_b3s23; [apply Hb; unfold BWIDTH, WIDTH; lia | exact Hs].
Qed.

End Step.

Module Torus.

Lemma wrap_coord_mod (n v : Z) : 0 < n -> 0 <= v <= n + 1 ->
  wrap_coord n v = (v - 1) mod n + 1.
Proof.
  intros Hn Hv. unfold wrap_coord. zsplit.
  - subst. rewrite <- (Z.mod_unique (0 - 1) n (-1) (n - 1)) by lia. lia.
  - subst. rewrite <- (Z.mod_unique (n + 1 - 1) n 1 0) by lia. lia.
  - rewrite Z.mod_small by lia. lia.
Qed.

(** A read of the mirrored buffer around interior cell (px, py) is the
    wrapped neighbour of logical cell (px - 1, py - 1). *)
Lemma mirrored_read (c : buf) (py px dy dx i : Z) :
  1 <= py <= HEIGHT -> 1 <= px <= WIDTH -> -1 <= dy <= 1 -> -1 <= dx <= 1 ->
  i = IDX (py + dy) (px + dx) ->
  update_borders_buf c i = nb (logical c) (px - 1) (py - 1) dx dy.
Proof.
  intros Hy Hx Hdy Hdx ->.
  rewrite Borders.update_borders_buf_at by (unfold_consts; lia).
  unfold nb, logical.
  rewrite !wrap_coord_mod by (unfold_consts; lia).
  f_equal. f_equal; f_equal; f_equal; lia.
Qed.

Definition logical_binary (c : buf) : Prop :=
  forall x y, in_grid x y -> binary (logical c x y).

Lemma mirrored_binary (c : buf) (i : Z) :
  logical_binary c -> 0 <= i < BHEIGHT * BWIDTH ->
  binary (update_borders_buf c i).
Proof.
  intros Hb Hi.
  assert (Hq : 0 <= i / BWIDTH < BHEIGHT).
  { unfold_consts. split; [apply Z.div_pos | apply Z.div_lt_upper_bound]; lia. }
  assert (Hr : 0 <= i mod BWIDTH < BWIDTH).
  { apply Z.mod_pos_bound. unfold_consts. lia. }
  assert (Hi' : i = IDX (i / BWIDTH) (i mod BWIDTH)).
  { unfold IDX. rewrite Z.mul_comm. apply Z.div_mod. unfold_consts. lia. }
  rewrite Hi', Borders.update_borders_buf_at by assumption.
  rewrite !wrap_coord_mod by (unfold_consts; lia).
  specialize (Hb ((i mod BWIDTH - 1) mod WIDTH) ((i / BWIDTH - 1) mod HEIGHT)).
  unfold logical in Hb. apply Hb. unfold in_grid.
  split; apply Z.mod_pos_bound; unfold_consts; lia.
Qed.

(** After mirroring, the lookup of [calc_next_gen] at interior cell
    (px, py) is defined and is the torus rule at logical (px - 1, py - 1). *)
Lemma next_value_mirrored (c : buf) (py px : Z) :
  1 <= py <= HEIGHT -> 1 <= px <= WIDTH -> logical_binary c ->
  next_value (update_borders_buf c) (py * BWIDTH) px =
  Some (life (logical c) (px - 1) (py - 1)).
Proof.
  intros Hy Hx Hb.
  destruct (Step.next_value_binary (update_borders_buf c) (py * BWIDTH) px)
    as [_ ->].
  { intros i Hi. apply mirrored_binary; [exact Hb | unfold_consts; lia]. }
  unfold neighbour_sum.
  rewrite (mirrored_read c py px (-1) (-1) (py * BWIDTH - BWIDTH + px - 1)),
          (mirrored_read c py px (-1) 0 (py * BWIDTH - BWIDTH + px)),
          (mirrored_read c py px (-1) 1 (py * BWIDTH - BWIDTH + px + 1)),
          (mirrored_read c py px 0 (-1) (py * BWIDTH + px - 1)),
          (mirrored_read c py px 0 1 (py * BWIDTH + px + 1)),
          (mirrored_read c py px 1 (-1) (py * BWIDTH + BWIDTH + px - 1)),
          (mirrored_read c py px 1 0 (py * BWIDTH + BWIDTH + px)),
          (mirrored_read c py px 1 1 (py * BWIDTH + BWIDTH + px + 1)),
          (mirrored_read c py px 0 0 (py * BWIDTH + px))
    by (unfold_consts; lia).
  reflexivity.
Qed.

(** One generation step on a grid of 0/1 cells is the torus rule on its
    logical cells. *)
Lemma gen_step_life (s : State) :
  logical_binary (current s) ->
  exists s', gen_step s = Some s' /\
    same_cells (logical (current s')) (life (logical (current s))).
Proof.
  intros Hb. unfold gen_step.
  destruct (Step.calc_next_gen_spec (update_borders s))
    as (s1 & Hrun & Hcur & _ & Hn & _).
  { intros py px Hpy Hpx. cbn [update_borders set_current current].
    rewrite next_value_mirrored by assumption. discriminate. }
  rewrite Hrun. eexists. split; [reflexivity|].
  intros x y Hxy. unfold in_grid in Hxy. unfold logical at 1. cbn [swap current].
  rewrite Hn by (unfold_consts; lia).
  cbn [update_borders set_current current].
  replace ((1 <=? y + 1) && (y + 1 <=? HEIGHT) && (1 <=? x + 1) && (x + 1 <=? WIDTH))
    with true by (unfold_consts; zsplit; lia).
  unfold rule_val. rewrite next_value_mirrored by (try assumption; lia).
  f_equal; lia.
Qed.

Lemma life_ext (g h : grid) : same_cells g h -> forall x y, life g x y = life h x y.
Proof.
  intros E x y. unfold life, torus_sum, nb.
  rewrite !E; [reflexivity | ..];
  unfold in_grid; split; apply Z.mod_pos_bound; unfold_consts; lia.
Qed.

Lemma life_n_ext (n : nat) : forall g h, same_cells g h ->
  same_cells (life_n n g) (life_n n h).
Proof.
  induction n as [|n IH]; intros g h E; cbn [life_n]; [exact E|].
  apply IH. intros x y _. apply life_ext, E.
Qed.

Lemma shift_ext (g h : grid) (a b : Z) : same_cells g h ->
  forall x y, shift g a b x y = shift h a b x y.
Proof.
  intros E x y. unfold shift. apply E. unfold in_grid.
  split; apply Z.mod_pos_bound; unfold_consts; lia.
Qed.

(** The rule commutes with moving the grid around the torus. *)
Lemma life_shift (g : grid) (a b x y : Z) :
  life (shift g a b) x y = shift (life g) a b x y.
Proof.
  unfold life, torus_sum, nb, shift.
  repeat match goal with
  | |- context [((?u + ?d) mod ?m - ?c) mod ?m] =>
      replace (((u + d) mod m - c) mod m) with (((u - c) mod m + d) mod m)
        by (rewrite Z.add_mod_idemp_l, Zminus_mod_idemp_l by (unfold_consts; lia);
            f_equal; lia)
  end.
  reflexivity.
Qed.

Lemma life_n_shift (n : nat) : forall g a b,
  same_cells (life_n n (shift g a b)) (shift (life_n n g) a b).
Proof.
  induction n as [|n IH]; intros g a b; cbn [life_n].
  - intros x y _. reflexivity.
  - intros x y Hxy.
    rewrite (life_n_ext n (life (shift g a b)) (shift (life g) a b)
               ltac:(intros u v _; apply life_shift) x y Hxy).
    apply IH, Hxy.
Qed.

Lemma existsb_pointwise {A} (f g : A -> bool) (l : list A) :
  (forall v, f v = g v) -> existsb f l = existsb g l.
Proof.
  intros E. induction l as [|v l IH]; cbn; [reflexivity|]. rewrite E, IH. reflexivity.
Qed.

Lemma pattern_shift (pts : list (Z * Z)) (a b x0 y0 x y : Z) :
  in_grid x y ->
  shift (pattern pts a b) x0 y0 x y = pattern pts (x0 + a) (y0 + b) x y.
Proof.
  intros [Hx Hy]. unfold shift, pattern.
  match goal with
  | |- (if existsb ?F _ then _ else _) = (if existsb ?G _ then _ else _) =>
      rewrite (existsb_pointwise F G pts); [reflexivity|]
  end.
  intros [dx dy]. cbn [fst snd].
  unfold_consts. zsplit; try reflexivity; Z.div_mod_to_equations; lia.
Qed.

Lemma zrange_in (n : nat) (v : Z) : 0 <= v < Z.of_nat n -> In v (zrange n).
Proof.
  intros Hv. unfold zrange. apply in_map_iff. exists (Z.to_nat v).
  split; [apply Z2Nat.id; lia|]. apply in_seq. lia.
Qed.

Lemma check_cells_ok (g h : grid) : check_cells g h = true -> same_cells g h.
Proof.
  unfold check_cells. intros H x y [Hx Hy].
  rewrite forallb_forall in H.
  specialize (H x (zrange_in (Z.to_nat WIDTH) x ltac:(unfold_consts; simpl Z.of_nat; lia))).
  rewrite forallb_forall in H.
  specialize (H y (zrange_in (Z.to_nat HEIGHT) y ltac:(unfold_consts; simpl Z.of_nat; lia))).
  apply Z.eqb_eq, H.
Qed.

(** A pattern evolution checked at anchor (0, 0) holds at every anchor. *)
Lemma pattern_life_n (n : nat) (pts pts' : list (Z * Z)) (a b : Z) :
  same_cells (life_n n (pattern pts 0 0)) (pattern pts' a b) ->
  forall x0 y0,
  same_cells (life_n n (pattern pts x0 y0)) (pattern pts' (x0 + a) (y0 + b)).
Proof.
  intros Hbase x0 y0 x y Hxy.
  assert (E : same_cells (pattern pts x0 y0) (shift (pattern pts 0 0) x0 y0)).
  { intros u v Huv. rewrite pattern_shift by exact Huv.
    rewrite !Z.add_0_r. reflexivity. }
  rewrite (life_n_ext n _ _ E x y Hxy).
  rewrite (life_n_shift n _ x0 y0 x y Hxy).
  rewrite (shift_ext _ _ x0 y0 Hbase).
  apply pattern_shift, Hxy.
Qed.

Lemma b3s23_binary (a n : Z) : binary (b3s23 a n).
Proof. unfold b3s23, binary. destruct (_ || _); auto. Qed.

Lemma gen_steps_life (n : nat) : forall s,
  logical_binary (current s) ->
  exists s', gen_steps n s = Some s' /\
    same_cells (logical (current s')) (life_n n (logical (current s))).
Proof.
  induction n as [|n IH]; intros s Hb.
  - exists s. split; [reflexivity|]. intros x y _. reflexivity.
  - cbn [gen_steps]. destruct (gen_step_life s Hb) as (s1 & Hs1 & E1).
    rewrite Hs1.
    destruct (IH s1) as (s' & Hs' & E').
    { intros x y Hxy. rewrite (E1 x y Hxy). apply b3s23_binary. }
    exists s'. split; [exact Hs'|].
    intros x y Hxy. rewrite (E' x y Hxy). cbn [life_n].
    apply life_n_ext; [| exact Hxy]. exact E1.
Qed.

Lemma pattern_binary (pts : list (Z * Z)) (a b x y : Z) : binary (pattern pts a b x y).
Proof. unfold pattern, binary. destruct (existsb _ _); auto. Qed.

Lemma life_n_chain (n : nat) (g h k : grid) :
  same_cells (life g) h -> same_cells (life_n n h) k ->
  same_cells (life_n (S n) g) k.
Proof.
  intros E1 E2 x y Hxy. cbn [life_n].
  rewrite (life_n_ext n (life g) h E1 x y Hxy). apply E2, Hxy.
Qed.

(** A grid holding a pattern at any anchor evolves under [n] generation
    steps as the pattern at anchor (0, 0) does under the torus rule. *)
Lemma pattern_gen_steps (n : nat) (pts pts' : list (Z * Z)) (a b : Z) :
  same_cells (life_n n (pattern pts 0 0)) (pattern pts' a b) ->
  forall x0 y0 s,
  same_cells (logical (current s)) (pattern pts x0 y0) ->
  exists s', gen_steps n s = Some s' /\
    same_cells (logical (current s')) (pattern pts' (x0 + a) (y0 + b)).
Proof.
  intros Hbase x0 y0 s Hs.
  destruct (gen_steps_life n s) as (s' & Hrun & E).
  { intros x y Hxy. rewrite (Hs x y Hxy). apply pattern_binary. }
  exists s'. split; [exact Hrun|]. intros x y Hxy.
  rewrite (E x y Hxy), (life_n_ext n _ _ Hs x y Hxy).
  apply (pattern_life_n n pts pts' a b Hbase x0 y0 x y Hxy).
Qed.

Lemma gen_steps_one (s s' : State) : gen_steps 1 s = Some s' -> gen_step s = Some s'.
Proof. cbn [gen_steps]. destruct (gen_step s); [exact (fun H => H) | discriminate]. Qed.

Lemma block_life : same_cells (life_n 1 (pattern P_BLOCK 0 0)) (pattern P_BLOCK 0 0).
Proof. apply check_cells_ok. vm_compute. reflexivity. Qed.

Lemma blinker_life : same_cells (life_n 1 (pattern P_BLINKER 0 0)) (pattern VBLINKER 0 0).
Proof. apply check_cells_ok. vm_compute. reflexivity. Qed.

Lemma vblinker_life : same_cells (life_n 1 (pattern VBLINKER 0 0)) (pattern P_BLINKER 0 0).
Proof. apply check_cells_ok. vm_compute. reflexivity. Qed.

Lemma glider_life : same_cells (life_n 4 (pattern P_GLIDER 0 0)) (pattern P_GLIDER 1 1).
Proof.
  apply (life_n_chain 3 _ (pattern GLIDER1 0 0));
    [apply check_cells_ok; vm_compute; reflexivity|].
  apply (life_n_chain 2 _ (pattern GLIDER2 0 0));
    [apply check_cells_ok; vm_compute; reflexivity|].
  apply (life_n_chain 1 _ (pattern GLIDER3 0 0));
    [apply check_cells_ok; vm_compute; reflexivity|].
  apply check_cells_ok. vm_compute. reflexivity.
Qed.

End Torus.

Module Preset.

Lemma stamp_points (y0 x0 : Z) (pts : list (Z * Z)) : forall s,
  (forall i, current (fold_left (stamp_point y0 x0) pts s) i =
             if existsb (stamps y0 x0 i) pts then 1 else current s i) /\
  next (fold_left (stamp_point y0 x0) pts s) = next s.
Proof.
  induction pts as [|p pts IH]; intros s; cbn [fold_left existsb].
  - split; reflexivity.
  - destruct (IH (stamp_point y0 x0 s p)) as [Hc Hn]. split.
    + intros i. rewrite Hc. unfold stamp_point, stamps. cbv zeta.
      destruct ((1 <=? y0 + snd p) && (y0 + snd p <=? HEIGHT) &&
                (1 <=? x0 + fst p) && (x0 + fst p <=? WIDTH));
        cbn [andb orb current].
      * unfold upd. rewrite (Z.eqb_sym i).
        destruct (IDX _ _ =? i); destruct (existsb _ pts); reflexivity.
      * destruct (existsb _ pts); reflexivity.
    + rewrite Hn. unfold stamp_point. destruct (_ && _); reflexivity.
Qed.

End Preset.

Module Invariant.

Lemma upd_binary (b : buf) (j v : Z) :
  buf_binary b -> (0 <= j < BHEIGHT * BWIDTH -> binary v) -> buf_binary (upd b j v).
Proof.
  intros Hb Hv i Hi. unfold upd. destruct (Z.eqb_spec i j) as [->|]; auto.
Qed.

Lemma memset_binary (b : buf) (off c n : Z) :
  buf_binary b -> binary c -> buf_binary (memset b off c n).
Proof. intros Hb Hc i Hi. unfold memset. destruct (_ && _); auto. Qed.

Lemma rand_bit_binary (r : Z) : binary (Z.land r 1 mod 256).
Proof.
  assert (E : Z.land r 1 = r mod 2) by exact (Z.land_ones r 1 ltac:(lia)).
  rewrite E. assert (0 <= r mod 2 < 2) by (apply Z.mod_pos_bound; lia).
  rewrite Z.mod_small by lia. unfold binary. lia.
Qed.

Lemma random_row_binary (n : nat) : forall rnd k srow y x cb,
  buf_binary (fst cb) ->
  buf_binary (fst (snd (random_row n rnd k srow y x cb))).
Proof.
  induction n as [|n IH]; intros rnd k srow y x cb Hb; cbn [random_row]; [exact Hb|].
  apply IH. cbn [fst]. apply upd_binary; [exact Hb|]. intros _. apply rand_bit_binary.
Qed.

Lemma random_rows_binary (n : nat) : forall rnd k y cb,
  buf_binary (fst cb) -> buf_binary (fst (random_rows n rnd k y cb)).
Proof.
  induction n as [|n IH]; intros rnd k y cb Hb; cbn [random_rows]; [exact Hb|].
  pose proof (random_row_binary (Z.to_nat WIDTH) rnd k ((y - 1) * WIDTH) y 1 cb Hb) as H.
  destruct (random_row _ _ _ _ _ _ _) as [k' cb']. apply IH, H.
Qed.

Lemma zero_row_binary (n : nat) : forall cy x c,
  buf_binary c -> buf_binary (zero_row n cy x c).
Proof.
  induction n as [|n IH]; intros cy x c Hc; cbn [zero_row]; [exact Hc|].
  apply IH, upd_binary; [exact Hc | intros _; left; reflexivity].
Qed.

Lemma calc_binary (s s' : State) :
  binary_state s -> calc_next_gen s = Some s' -> binary_state s'.
Proof.
  intros [Hc Hn] Hrun.
  destruct (Step.calc_next_gen_spec s (Step.calc_next_gen_defined s s' Hrun))
    as (s2 & Hrun2 & Hcur & _ & Hnx & _).
  rewrite Hrun in Hrun2. injection Hrun2 as <-.
  split; [rewrite Hcur; exact Hc|].
  intros i Hi.
  assert (Hi' : i = IDX (i / BWIDTH) (i mod BWIDTH)).
  { unfold IDX. rewrite Z.mul_comm. apply Z.div_mod. unfold_consts. lia. }
  assert (Hr : 0 <= i mod BWIDTH < BWIDTH).
  { apply Z.mod_pos_bound. unfold_consts. lia. }
  rewrite Hi', Hnx by exact Hr. rewrite <- Hi'.
  destruct (_ && _ && _ && _) eqn:E; [| apply Hn, Hi].
  rewrite !andb_true_iff, !Z.leb_le in E.
  assert (Hw : forall j, i / BWIDTH * BWIDTH - BWIDTH + i mod BWIDTH - 1 <= j <=
                         i / BWIDTH * BWIDTH + BWIDTH + i mod BWIDTH + 1 ->
                binary (current s j)).
  { intros j Hj. apply Hc. unfold_consts. lia. }
  unfold rule_val. rewrite (proj2 (Step.next_value_binary _ _ _ Hw)).
  apply Torus.b3s23_binary.
Qed.

Lemma reachable_binary_state (s : State) : reachable s -> binary_state s.
Proof.
  induction 1 as [| rnd s _ [Hc Hn] | s _ [Hc Hn] | cy cx s _ [Hc Hn]
                 | cy s _ [Hc Hn] | y0 x0 pts s _ [Hc Hn] | s _ [Hc Hn]
                 | s _ [Hc Hn] | s _ [Hc Hn] | s s' _ IH Hrun | s _ [Hc Hn]].
  - split; intros i _; left; reflexivity.
  - unfold initialize_grid_random.
    pose proof (random_rows_binary (Z.to_nat HEIGHT) rnd O 1
                  (memset (current s) 0 0 (BHEIGHT * BWIDTH), screenBuf s)
                  (memset_binary _ _ _ _ Hc (or_introl eq_refl))) as H.
    destruct (random_rows _ _ _ _ _) as [c' sb']. split; [exact H | exact Hn].
  - split; [apply memset_binary; [exact Hc | left; reflexivity] | exact Hn].
  - split; [|exact Hn]. apply upd_binary; [exact Hc|].
    intros Hi. destruct (Hc _ Hi) as [E | E]; rewrite E; [right | left]; reflexivity.
  - split; [apply zero_row_binary, Hc | exact Hn].
  - destruct (Preset.stamp_points y0 x0 pts s) as [Hp Hpn].
    split; unfold draw_preset, update_display; cbn [current next].
    + intros i Hi. rewrite Hp. destruct (existsb _ _); [right; reflexivity | apply Hc, Hi].
    + rewrite Hpn. exact Hn.
  - split; [exact Hc | exact Hn].
  - split; [exact Hc | exact Hn].
  - split; [|exact Hn]. cbn [update_borders set_current current].
    intros i Hi. apply Torus.mirrored_binary; [|exact Hi].
    intros x y [Hx Hy]. apply Hc. unfold IDX. unfold_consts. lia.
  - exact (calc_binary s s' IH Hrun).
  - split; [exact Hn | exact Hc].
Qed.

End Invariant.

(** Closed forms of the loops of the seeding, editing and display code. *)
Module Loops.

Lemma split_index (j : Z) : j = j / WIDTH * WIDTH + j mod WIDTH /\ 0 <= j mod WIDTH < WIDTH.
Proof.
  split; [rewrite Z.mul_comm; apply Z.div_mod | apply Z.mod_pos_bound]; unfold WIDTH; lia.
Qed.

Lemma screen_row_at (n : nat) : forall cur srow y x sb j,
  screen_row n cur srow y x sb j =
  if (srow + x - 1 <=? j) && (j <? srow + x - 1 + Z.of_nat n)
  then glyph (cur (IDX y (j - srow + 1))) else sb j.
Proof.
  induction n as [|n IH]; intros cur srow y x sb j; cbn [screen_row].
  - zsplit; zsolve.
  - rewrite IH. unfold upd. zsplit; try lia; try reflexivity.
    do 3 f_equal. lia.
Qed.

Lemma screen_rows_at (n : nat) : forall cur y sb ly lx, 0 <= lx < WIDTH ->
  screen_rows n cur y sb (ly * WIDTH + lx) =
  if (y - 1 <=? ly) && (ly <? y - 1 + Z.of_nat n)
  then glyph (cur (IDX (ly + 1) (lx + 1))) else sb (ly * WIDTH + lx).
Proof.
  induction n as [|n IH]; intros cur y sb ly lx Hlx; cbn [screen_rows].
  - zsplit; zsolve.
  - rewrite IH by exact Hlx. rewrite screen_row_at.
    change (Z.of_nat (Z.to_nat WIDTH)) with 40. unfold WIDTH in *.
    zsplit; try lia; try reflexivity; do 3 f_equal; lia.
Qed.

Lemma blank_rows_at (n : nat) : forall y sb j,
  blank_rows n y sb j =
  if (y * WIDTH <=? j) && (j <? (y + Z.of_nat n) * WIDTH) then DEAD_CHAR else sb j.
Proof.
  induction n as [|n IH]; intros y sb j; cbn [blank_rows].
  - zsplit; zsolve.
  - rewrite IH. unfold memset. unfold WIDTH. zsplit; zsolve.
Qed.

Lemma zero_row_at (n : nat) : forall cy x c j,
  zero_row n cy x c j =
  if (IDX cy x <=? j) && (j <? IDX cy x + Z.of_nat n) then 0 else c j.
Proof.
  induction n as [|n IH]; intros cy x c j; cbn [zero_row].
  - zsplit; zsolve.
  - rewrite IH. unfold upd. unfold_consts. zsplit; zsolve.
Qed.

Lemma random_row_at (n : nat) : forall rnd k srow y x cb,
  fst (random_row n rnd k srow y x cb) = (k + n)%nat /\
  (forall j, fst (snd (random_row n rnd k srow y x cb)) j =
     if (IDX y x <=? j) && (j <? IDX y x + Z.of_nat n)
     then Z.land (rnd (k + Z.to_nat (j - IDX y x))%nat) 1 mod 256 else fst cb j) /\
  (forall j, snd (snd (random_row n rnd k srow y x cb)) j =
     if (srow + x - 1 <=? j) && (j <? srow + x - 1 + Z.of_nat n)
     then glyph (Z.land (rnd (k + Z.to_nat (j - (srow + x - 1)))%nat) 1 mod 256)
     else snd cb j).
Proof.
  induction n as [|n IH]; intros rnd k srow y x cb; cbn [random_row]; cbn [fst snd] in *.
  - split; [lia|]. split; intros j; zsplit; zsolve.
  - destruct (IH rnd (S k) srow y (x + 1)
                (upd (fst cb) (IDX y x) (Z.land (rnd k) 1 mod 256),
                 upd (snd cb) (srow + (x - 1)) (glyph (Z.land (rnd k) 1 mod 256))))
      as (Hk & Hc & Hs).
    split; [rewrite Hk; lia|]. split; intros j.
    + rewrite Hc. cbn [fst]. unfold upd. unfold_consts. zsplit; try lia; try reflexivity;
        do 3 f_equal; lia.
    + rewrite Hs. cbn [snd]. unfold upd. zsplit; try lia; try reflexivity;
        do 4 f_equal; lia.
Qed.

Lemma random_rows_at (n : nat) : forall rnd k y cb,
  (forall py px, 0 <= px < BWIDTH ->
     fst (random_rows n rnd k y cb) (IDX py px) =
     if (y <=? py) && (py <? y + Z.of_nat n) && (1 <=? px) && (px <=? WIDTH)
     then Z.land (rnd (k + Z.to_nat ((py - y) * WIDTH + px - 1))%nat) 1 mod 256
     else fst cb (IDX py px)) /\
  (forall ly lx, 0 <= lx < WIDTH ->
     snd (random_rows n rnd k y cb) (ly * WIDTH + lx) =
     if (y - 1 <=? ly) && (ly <? y - 1 + Z.of_nat n)
     then glyph (Z.land (rnd (k + Z.to_nat ((ly - (y - 1)) * WIDTH + lx))%nat) 1 mod 256)
     else snd cb (ly * WIDTH + lx)).
Proof.
  induction n as [|n IH]; intros rnd k y cb; cbn [random_rows].
  - split; intros; zsplit; zsolve.
  - destruct (random_row_at (Z.to_nat WIDTH) rnd k ((y - 1) * WIDTH) y 1 cb)
      as (Hk & Hc & Hs).
    destruct (random_row _ _ _ _ _ _ _) as [k' cb'] eqn:E. cbn [fst snd] in Hk, Hc, Hs.
    destruct (IH rnd k' (y + 1) cb') as [Hc' Hs']. subst k'.
    change (Z.of_nat (Z.to_nat WIDTH)) with 40 in *.
    split.
    + intros py px Hpx. rewrite Hc' by exact Hpx. rewrite Hc.
      unfold_consts. zsplit; try lia; try reflexivity; do 3 f_equal; lia.
    + intros ly lx Hlx. rewrite Hs' by exact Hlx. rewrite Hs.
      unfold_consts. zsplit; try lia; try reflexivity; do 4 f_equal; lia.
Qed.

Lemma rand_bit_small (r : Z) : Z.land r 1 mod 256 = Z.land r 1.
Proof.
  assert (E : Z.land r 1 = r mod 2) by exact (Z.land_ones r 1 ltac:(lia)).
  rewrite E. apply Z.mod_small. pose proof (Z.mod_pos_bound r 2). lia.
Qed.

Lemma idx_split (i : Z) : i = IDX (i / BWIDTH) (i mod BWIDTH) /\ 0 <= i mod BWIDTH < BWIDTH.
Proof.
  split; [unfold IDX; rewrite Z.mul_comm; apply Z.div_mod | apply Z.mod_pos_bound];
    unfold_consts; lia.
Qed.

Lemma build_screen_at (s : State) :
  buf_shows (build_screen_from_current s) /\
  (forall j, j < 0 \/ WIDTH * HEIGHT <= j ->
     screenBuf (build_screen_from_current s) j = screenBuf s j) /\
  current (build_screen_from_current s) = current s /\
  next (build_screen_from_current s) = next s /\
  screen (build_screen_from_current s) = screen s.
Proof.
  unfold build_screen_from_current. cbn [current next screenBuf screen].
  split; [|split; [|split; [reflexivity | split; reflexivity]]].
  - intros x y [Hx Hy]. cbn [screenBuf current]. rewrite screen_rows_at by exact Hx.
    change (Z.of_nat (Z.to_nat HEIGHT)) with 25. unfold HEIGHT in Hy.
    zsplit; try lia; reflexivity.
  - intros j Hj. destruct (split_index j) as [Hj' Hr].
    rewrite Hj', screen_rows_at by exact Hr. rewrite <- Hj'. clear Hj'.
    change (Z.of_nat (Z.to_nat HEIGHT)) with 25.
    Z.div_mod_to_equations. unfold_consts. zsplit; zsolve.
Qed.

Lemma display_shows (s : State) : screen_shows (update_display s).
Proof.
  intros x y [Hx Hy]. unfold update_display, memcpy_to. cbn [screen screenBuf].
  unfold_consts. zsplit; zsolve.
Qed.

Lemma testbit_byte (a n : Z) : 0 <= n < 8 -> Z.testbit (a mod 256) n = Z.testbit a n.
Proof. intros Hn. change 256 with (2 ^ 8). apply Z.mod_pow2_bits_low. lia. Qed.

Lemma preset_on_clear (y0 x0 : Z) (pts : list (Z * Z)) (s : State) :
  holds_exactly (current (draw_preset y0 x0 pts (clear_grid s))) y0 x0 pts /\
  next (draw_preset y0 x0 pts (clear_grid s)) = next s.
Proof.
  destruct (Preset.stamp_points y0 x0 pts (clear_grid s)) as [Hc Hn].
  unfold draw_preset, update_display. cbn [current next]. split.
  - intros i Hi. rewrite Hc. destruct (existsb _ _); [reflexivity|].
    unfold clear_grid, update_display, memset. cbn [current].
    unfold_consts. zsplit; zsolve.
  - rewrite Hn. reflexivity.
Qed.

End Loops.

Import Loops.

(** [config_inv] holds at every control point [main] reaches. *)
Module MainLoop.

Lemma shows_clear_grid (s : State) : buf_shows (clear_grid s) /\ screen_shows (clear_grid s).
Proof.
  split; [|apply display_shows].
  intros x y [Hx Hy].
  assert (Hc : current (clear_grid s) (IDX (y + 1) (x + 1)) = 0).
  { unfold clear_grid, update_display, memset. cbn [current]. unfold_consts. zsplit; lia. }
  rewrite Hc. unfold clear_grid, update_display. cbn [screenBuf].
  rewrite blank_rows_at. change (Z.of_nat (Z.to_nat HEIGHT)) with 25.
  unfold_consts. zsplit; zsolve.
Qed.

Lemma shows_toggle (cy cx : Z) (s : State) :
  1 <= cx <= WIDTH -> 1 <= cy <= HEIGHT -> buf_shows s -> screen_shows s ->
  buf_shows (toggle_cell cy cx s) /\ screen_shows (toggle_cell cy cx s).
Proof.
  intros Hx Hy Hb Hs. split; intros x y Hxy; pose proof Hxy as [Hx' Hy'];
    unfold toggle_cell, upd; cbn [current screenBuf screen].
  - specialize (Hb x y Hxy). unfold_consts. zsplit; zsolve.
  - specialize (Hs x y Hxy). unfold_consts. zsplit; zsolve.
Qed.

Lemma shows_clear_row (cy : Z) (s : State) :
  1 <= cy <= HEIGHT -> buf_shows s -> screen_shows s ->
  buf_shows (clear_row cy s) /\ screen_shows (clear_row cy s).
Proof.
  intros Hy Hb Hs. split; intros x y Hxy; pose proof Hxy as [Hx' Hy'];
    unfold clear_row, memset; cbn [current screenBuf screen].
  - specialize (Hb x y Hxy). rewrite zero_row_at.
    change (Z.of_nat (Z.to_nat WIDTH)) with 40.
    unfold_consts. zsplit_lt; zsolve.
  - specialize (Hs x y Hxy). unfold_consts. zsplit; zsolve.
Qed.

Lemma binary_logical (s : State) : binary_state s -> Torus.logical_binary (current s).
Proof.
  intros [Hc _] x y [Hx Hy]. unfold logical. apply Hc. unfold_consts. lia.
Qed.

Lemma shows_gen_step (s s' : State) : gen_step s = Some s' -> buf_shows s'.
Proof.
  unfold gen_step. intros Hg.
  destruct (calc_next_gen (update_borders s)) as [s1|] eqn:Hc; [|discriminate].
  injection Hg as <-.
  destruct (Step.calc_next_gen_spec _ (Step.calc_next_gen_defined _ _ Hc))
    as (s2 & Hrun2 & _ & _ & Hn & Hs).
  rewrite Hc in Hrun2. injection Hrun2 as <-.
  intros x y [Hx Hy]. cbn [swap screenBuf current].
  rewrite Hs by exact Hx. rewrite Hn by (unfold_consts; lia).
  replace ((0 <=? y) && (y <? HEIGHT)) with true by (zsplit; lia).
  replace ((1 <=? y + 1) && (y + 1 <=? HEIGHT) && (1 <=? x + 1) && (x + 1 <=? WIDTH))
    with true by (unfold_consts; zsplit; lia).
  reflexivity.
Qed.

Lemma binary_gen_step (s s' : State) :
  binary_state s -> gen_step s = Some s' -> binary_state s'.
Proof.
  unfold gen_step. intros Hb Hg.
  destruct (calc_next_gen (update_borders s)) as [s1|] eqn:Hc; [|discriminate].
  injection Hg as <-.
  assert (Hub : binary_state (update_borders s)).
  { split; [|exact (proj2 Hb)]. cbn [update_borders set_current current].
    intros i Hi. apply Torus.mirrored_binary; [apply binary_logical, Hb | exact Hi]. }
  destruct (Invariant.calc_binary _ _ Hub Hc) as [H1 H2]. split; assumption.
Qed.

Lemma gen_step_ok (s : State) :
  binary_state s ->
  exists s', gen_step s = Some s' /\ binary_state s' /\ buf_shows s' /\
    same_cells (logical (current s')) (life (logical (current s))).
Proof.
  intros Hb.
  destruct (Torus.gen_step_life s (binary_logical s Hb)) as (s' & Hg & Hlife).
  exists s'. split; [exact Hg|]. split; [exact (binary_gen_step s s' Hb Hg)|].
  split; [exact (shows_gen_step s s' Hg) | exact Hlife].
Qed.

Lemma binary_clear_grid (s : State) : binary_state s -> binary_state (clear_grid s).
Proof.
  intros [Hc Hn]. split; [|exact Hn].
  apply Invariant.memset_binary; [exact Hc | left; reflexivity].
Qed.

Lemma binary_toggle (cy cx : Z) (s : State) :
  binary_state s -> binary_state (toggle_cell cy cx s).
Proof.
  intros [Hc Hn]. split; [|exact Hn]. apply Invariant.upd_binary; [exact Hc|].
  intros Hi. destruct (Hc _ Hi) as [E | E]; rewrite E; [right | left]; reflexivity.
Qed.

Lemma binary_clear_row (cy : Z) (s : State) :
  binary_state s -> binary_state (clear_row cy s).
Proof. intros [Hc Hn]. split; [apply Invariant.zero_row_binary, Hc | exact Hn]. Qed.

Lemma binary_random (rnd : nat -> Z) (s : State) :
  binary_state s -> binary_state (initialize_grid_random rnd s).
Proof.
  intros [Hc Hn]. unfold initialize_grid_random.
  pose proof (Invariant.random_rows_binary (Z.to_nat HEIGHT) rnd O 1
                (memset (current s) 0 0 (BHEIGHT * BWIDTH), screenBuf s)
                (Invariant.memset_binary _ _ _ _ Hc (or_introl eq_refl))) as H.
  destruct (random_rows _ _ _ _ _) as [c' sb']. split; [exact H | exact Hn].
Qed.

Lemma binary_preset (y0 x0 : Z) (pts : list (Z * Z)) (s : State) :
  binary_state s -> binary_state (draw_preset y0 x0 pts s).
Proof.
  intros [Hc Hn]. destruct (Preset.stamp_points y0 x0 pts s) as [Hp Hpn].
  split; unfold draw_preset, update_display; cbn [current next].
  - intros i Hi. rewrite Hp. destruct (existsb _ _); [right; reflexivity | apply Hc, Hi].
  - rewrite Hpn. exact Hn.
Qed.

Lemma binary_presets_key (key : Z) (s : State) :
  binary_state s -> binary_state (presets_key key s).
Proof.
  intros Hb. unfold presets_key. cbv zeta.
  match goal with |- context [build_screen_from_current ?x] =>
    destruct (build_screen_at x) as (_ & _ & Hc & Hn & _) end.
  unfold binary_state. cbn [update_display current next]. rewrite Hc, Hn.
  repeat match goal with |- context [if ?b then _ else _] => destruct b end;
    try apply binary_preset; try apply binary_clear_grid; exact Hb.
Qed.

Lemma upper_bit (m : Machine) : Z.testbit (d018 (set_uppercase m)) 1 = false.
Proof.
  unfold set_uppercase. cbn [d018].
  rewrite testbit_byte, Z.land_spec, Z.lnot_spec by lia. apply andb_false_r.
Qed.

Lemma lower_bit (m : Machine) : Z.testbit (d018 (set_lowercase m)) 1 = true.
Proof.
  unfold set_lowercase. cbn [d018].
  rewrite testbit_byte, Z.lor_spec by lia. apply orb_true_r.
Qed.

Lemma move_cursor_range (key cx cy : Z) :
  1 <= cx <= WIDTH -> 1 <= cy <= HEIGHT ->
  1 <= fst (move_cursor key cx cy) <= WIDTH /\ 1 <= snd (move_cursor key cx cy) <= HEIGHT.
Proof.
  intros Hx Hy. unfold WIDTH, HEIGHT in *.
  unfold move_cursor. rewrite !Z.gtb_ltb.
  destruct (key =? KEY_UP); [|destruct (key =? KEY_DOWN);
    [|destruct (key =? KEY_LEFT); [|destruct (key =? KEY_RIGHT)]]];
    cbn [fst snd]; unfold WIDTH, HEIGHT; zsplit; lia.
Qed.

Lemma editor_top_inv (cx cy : Z) (m : Machine) :
  binary_state (st m) -> Z.testbit (d018 m) 1 = false ->
  1 <= cx <= WIDTH -> 1 <= cy <= HEIGHT ->
  buf_shows (st m) -> screen_shows (st m) ->
  config_inv (editor_top cx cy m).
Proof.
  intros Hb Hu Hx Hy Hbs Hss. unfold editor_top, config_inv, on_screen, on_st, set_screen.
  cbn [pc mach st d018 current next screenBuf screen].
  split; [exact Hb|]. split; [exact Hu|]. split; [exact Hx|]. split; [exact Hy|].
  split; [exact Hbs|].
  assert (Ho : screen (st m) (cursor_pos cx cy) = screenBuf (st m) (cursor_pos cx cy)).
  { apply (Hss (cx - 1) (cy - 1)). unfold in_grid. lia. }
  split; [exact Ho|].
  intros x y Hxy. unfold upd. cbn [screen screenBuf]. rewrite Ho.
  destruct (y * WIDTH + x =? cursor_pos cx cy); [reflexivity|].
  apply Hss, Hxy.
Qed.

Lemma sim_prepare_inv (lib : Lib) (m : Machine) :
  binary_state (st m) -> config_inv (sim_prepare lib m).
Proof.
  intros Hb. unfold sim_prepare, config_inv. cbn [pc mach].
  destruct (build_screen_at (st (set_uppercase (on_screen (clrscr lib) m))))
    as (Hbs & _ & Hc & Hn & _).
  split; [|split; [apply upper_bit | exact Hbs]].
  unfold on_st. cbn [st]. unfold binary_state. cbn [update_display current next].
  rewrite Hc, Hn. exact Hb.
Qed.

Lemma menu_entry_inv (lib : Lib) (m : Machine) :
  binary_state (st m) -> config_inv (menu_entry lib m).
Proof. intros Hb. split; [exact Hb | apply lower_bit]. Qed.

Lemma editor_entry_inv (m : Machine) :
  binary_state (st m) -> config_inv (editor_entry m).
Proof.
  intros Hb. unfold editor_entry.
  destruct (build_screen_at (st (set_uppercase m))) as (Hbs & _ & Hc & Hn & _).
  apply editor_top_inv.
  - unfold on_st. cbn [st]. unfold binary_state. cbn [update_display current next].
    rewrite Hc, Hn. exact Hb.
  - unfold on_st. cbn [d018]. apply upper_bit.
  - change (Z.quot WIDTH 2) with 20. unfold WIDTH. lia.
  - change (Z.quot HEIGHT 2) with 12. unfold HEIGHT. lia.
  - unfold on_st. cbn [st]. exact Hbs.
  - unfold on_st. cbn [st]. apply display_shows.
Qed.

Lemma sim_cycle_gen_step (s : State) : sim_cycle s = gen_step (update_display s).
Proof. reflexivity. Qed.

Lemma binary_display (s : State) : binary_state s -> binary_state (update_display s).
Proof. unfold binary_state, update_display. cbn [current next]. exact (fun H => H). Qed.

Lemma restore_shows (cx cy orig : Z) (s : State) :
  buf_shows s -> orig = screenBuf s (cursor_pos cx cy) -> editor_screen cx cy orig s ->
  screen_shows (set_screen s (upd (screen s) (cursor_pos cx cy) orig)).
Proof.
  intros Hbs Ho He x y Hxy. unfold set_screen, upd. cbn [screen screenBuf].
  destruct (Z.eqb_spec (y * WIDTH + x) (cursor_pos cx cy)) as [E|E].
  - rewrite E. exact Ho.
  - rewrite (He x y Hxy). apply Z.eqb_neq in E. rewrite E. reflexivity.
Qed.

Lemma step_menu_inv (lib : Lib) (k : Z) (m : Machine) (c' : Config) :
  config_inv (mkConfig PMenu m) -> step lib (Key k) (mkConfig PMenu m) = Some c' -> config_inv c'.
Proof.
  unfold step. cbn [pc mach]. intros [Hb Hp] Hs. cbn [config_inv pc mach] in Hp.
  (* main menu *)
    destruct (k mod 256 =? 49); [injection Hs as <-; split; assumption|].
    destruct (k mod 256 =? 50).
    { injection Hs as <-. apply editor_entry_inv. cbn [on_st st]. apply binary_clear_grid, Hb. }
    destruct (k mod 256 =? 51); [injection Hs as <-; split; assumption|].
    destruct (k mod 256 =? 52); [injection Hs as <-; split; [exact Hb | apply upper_bit]|].
    injection Hs as <-. split; assumption.
Qed.

Lemma step_random_inv (lib : Lib) (r : Z) (m : Machine) (c' : Config) :
  config_inv (mkConfig PRandom m) -> step lib (Raster r) (mkConfig PRandom m) = Some c' -> config_inv c'.
Proof.
  unfold step. cbn [pc mach]. intros [Hb Hp] Hs. cbn [config_inv pc mach] in Hp.
  (* random seeding *)
    injection Hs as <-. apply sim_prepare_inv. apply binary_random, Hb.
Qed.

Lemma step_editor_inv (lib : Lib) (cx cy orig k : Z) (m : Machine) (c' : Config) :
  config_inv (mkConfig (PEditor cx cy orig) m) -> step lib (Key k) (mkConfig (PEditor cx cy orig) m) = Some c' -> config_inv c'.
Proof.
  unfold step. cbn [pc mach]. intros [Hb Hp] Hs. cbn [config_inv pc mach] in Hp.
  (* editor *)
    destruct Hp as (Hu & Hx & Hy & Hbs & Ho & He).
    set (m1 := on_screen (fun b => upd b (cursor_pos cx cy) orig) m) in Hs.
    assert (Hss1 : screen_shows (st m1)) by (apply restore_shows; assumption).
    assert (Hbs1 : buf_shows (st m1)) by exact Hbs.
    assert (Hb1 : binary_state (st m1)) by exact Hb.
    assert (Hu1 : Z.testbit (d018 m1) 1 = false) by exact Hu.
    clearbody m1. unfold editor_key in Hs.
    destruct (k mod 256 =? 32).
    { injection Hs as <-. destruct (shows_toggle cy cx (st m1) Hx Hy Hbs1 Hss1).
      apply editor_top_inv; try assumption. apply binary_toggle, Hb1. }
    destruct ((k mod 256 =? 120) || (k mod 256 =? 88)).
    { injection Hs as <-. destruct (shows_clear_grid (st m1)).
      apply editor_top_inv; try assumption. apply binary_clear_grid, Hb1. }
    destruct ((k mod 256 =? 99) || (k mod 256 =? 67)).
    { injection Hs as <-. destruct (shows_clear_row cy (st m1) Hy Hbs1 Hss1).
      apply editor_top_inv; try assumption. apply binary_clear_row, Hb1. }
    destruct ((k mod 256 =? 13) || (k mod 256 =? 10)).
    { injection Hs as <-. apply sim_prepare_inv. cbn [st].
      destruct (build_screen_at (st m1)) as (_ & _ & Hc & Hn & _).
      unfold binary_state. cbn [update_display current next]. rewrite Hc, Hn. exact Hb1. }
    destruct (move_cursor_range (k mod 256) cx cy Hx Hy).
    destruct (move_cursor (k mod 256) cx cy) as [cx' cy'] eqn:E.
    injection Hs as <-. apply editor_top_inv; assumption.
Qed.

Lemma step_presets_inv (lib : Lib) (k : Z) (m : Machine) (c' : Config) :
  config_inv (mkConfig PPresets m) -> step lib (Key k) (mkConfig PPresets m) = Some c' -> config_inv c'.
Proof.
  unfold step. cbn [pc mach]. intros [Hb Hp] Hs. cbn [config_inv pc mach] in Hp.
  (* presets menu *)
    injection Hs as <-. apply sim_prepare_inv. apply binary_presets_key, Hb.
Qed.

Lemma step_sim_inv (lib : Lib) (hit : bool) (m : Machine) (c' : Config) :
  config_inv (mkConfig PSim m) -> step lib (Kbhit hit) (mkConfig PSim m) = Some c' -> config_inv c'.
Proof.
  unfold step. cbn [pc mach]. intros [Hb Hp] Hs. cbn [config_inv pc mach] in Hp.
  (* simulation loop *)
    destruct (gen_step_ok (update_display (st m)) (binary_display (st m) Hb))
      as (s' & Hg & Hb' & Hbs' & _).
    rewrite sim_cycle_gen_step, Hg in Hs. injection Hs as <-.
    split; [exact Hb'|]. cbn [pc mach d018 st].
    destruct hit; split; first [exact (proj1 Hp) | exact Hbs'].
Qed.

Lemma step_simkey_inv (lib : Lib) (k : Z) (m : Machine) (c' : Config) :
  config_inv (mkConfig PSimKey m) -> step lib (Key k) (mkConfig PSimKey m) = Some c' -> config_inv c'.
Proof.
  unfold step. cbn [pc mach]. intros [Hb Hp] Hs.
  (* key after the simulation *)
    injection Hs as <-. apply menu_entry_inv, Hb.

Qed.

Lemma step_inv (lib : Lib) (i : Input) (c c' : Config) :
  config_inv c -> step lib i c = Some c' -> config_inv c'.
Proof.
  destruct c as [p m]. intros Hc Hs.
  destruct p, i.
  all: lazymatch type of Hs with
    | step _ (Key ?k) (mkConfig PMenu _) = _ => exact (step_menu_inv lib k m c' Hc Hs)
    | step _ (Raster ?r) (mkConfig PRandom _) = _ => exact (step_random_inv lib r m c' Hc Hs)
    | step _ (Key ?k) (mkConfig (PEditor ?cx ?cy ?o) _) = _ =>
        exact (step_editor_inv lib cx cy o k m c' Hc Hs)
    | step _ (Key ?k) (mkConfig PPresets _) = _ => exact (step_presets_inv lib k m c' Hc Hs)
    | step _ (Kbhit ?h) (mkConfig PSim _) = _ => exact (step_sim_inv lib h m c' Hc Hs)
    | step _ (Key ?k) (mkConfig PSimKey _) = _ => exact (step_simkey_inv lib k m c' Hc Hs)
    | step _ _ (mkConfig PFault _) = _ => destruct Hc as [_ []]
    | _ => discriminate Hs
    end.
Qed.

Lemma run_inv (lib : Lib) (l : list Input) : forall c c',
  config_inv c -> run lib l c = Some c' -> config_inv c'.
Proof.
  induction l as [|i l IH]; intros c c' Hc Hr; cbn [run] in Hr.
  - injection Hr as <-. exact Hc.
  - destruct (step lib i c) as [c1|] eqn:Hs; [|discriminate Hr].
    exact (IH c1 c' (step_inv lib i c c1 Hc Hs) Hr).
Qed.

Lemma start_inv (lib : Lib) (d : Z) : config_inv (start lib d).
Proof. apply menu_entry_inv. split; intros i _; left; reflexivity. Qed.

Lemma reach_inv (lib : Lib) (d : Z) (l : list Input) (c : Config) :
  run lib l (start lib d) = Some c -> config_inv c.
Proof. intros H. exact (run_inv lib l _ _ (start_inv lib d) H). Qed.

Lemma cursor_cell (cx cy x y : Z) :
  1 <= cx <= WIDTH -> 1 <= cy <= HEIGHT -> in_grid x y ->
  (y * WIDTH + x =? cursor_pos cx cy) = (x =? cx - 1) && (y =? cy - 1).
Proof.
  intros Hx Hy [Hx' Hy']. unfold cursor_pos. unfold_consts. zsplit; lia.
Qed.

Lemma editor_view_inv (cx cy orig : Z) (m : Machine) :
  config_inv (mkConfig (PEditor cx cy orig) m) ->
  1 <= cx <= WIDTH /\ 1 <= cy <= HEIGHT /\
  orig = glyph (current (st m) (IDX cy cx)) /\
  (forall x y, in_grid x y ->
     screen (st m) (y * WIDTH + x) =
     if (x =? cx - 1) && (y =? cy - 1)
     then Z.lor (glyph (current (st m) (IDX (y + 1) (x + 1)))) 128 mod 256
     else glyph (current (st m) (IDX (y + 1) (x + 1)))).
Proof.
  intros [_ Hi]. cbn [pc mach] in Hi.
  destruct Hi as (_ & Hx & Hy & Hbs & Ho & He).
  assert (Hg : orig = glyph (current (st m) (IDX cy cx))).
  { rewrite Ho. unfold cursor_pos.
    rewrite (Hbs (cx - 1) (cy - 1)) by (unfold in_grid; lia).
    do 3 f_equal; lia. }
  split; [exact Hx|]. split; [exact Hy|]. split; [exact Hg|].
  intros x y Hxy. rewrite (He x y Hxy), (cursor_cell cx cy x y Hx Hy Hxy).
  destruct (Z.eqb_spec x (cx - 1)), (Z.eqb_spec y (cy - 1)); cbn [andb];
    try exact (Hbs x y Hxy).
  rewrite Hg. replace (IDX (y + 1) (x + 1)) with (IDX cy cx) by (f_equal; lia). reflexivity.
Qed.

End MainLoop.

(** * The claims *)

(** C5: a 2x2 block anchored anywhere on the torus (coordinates modulo
    40 x 25) is a fixed point of one full generation step (mirror
    borders, [calc_next_gen], swap): the logical cells of the new current
    buffer are those of the old one. *)
Theorem block_is_still_life (x0 y0 : Z) (s : State) :
  same_cells (logical (current s)) (pattern P_BLOCK x0 y0) ->
  exists s', gen_step s = Some s' /\
    same_cells (logical (current s')) (logical (current s)).
Proof.
  intros Hs.
  destruct (Torus.pattern_gen_steps 1 P_BLOCK P_BLOCK 0 0 Torus.block_life x0 y0 s Hs)
    as (s' & Hrun & E).
  exists s'. split; [apply Torus.gen_steps_one, Hrun|].
  intros x y Hxy. rewrite (E x y Hxy), (Hs x y Hxy), !Z.add_0_r. reflexivity.
Qed.

(** C6: a horizontal blinker (three cells in a row, at any anchor) becomes
    after one generation step the vertical blinker through its middle cell,
    and after a second step the original grid again. *)
Theorem blinker_period_two (x0 y0 : Z) (s : State) :
  same_cells (logical (current s)) (pattern P_BLINKER x0 y0) ->
  exists s1, gen_step s = Some s1 /\
    same_cells (logical (current s1)) (pattern VBLINKER x0 y0) /\
    exists s2, gen_step s1 = Some s2 /\
      same_cells (logical (current s2)) (logical (current s)).
Proof.
  intros Hs.
  destruct (Torus.pattern_gen_steps 1 _ _ 0 0 Torus.blinker_life x0 y0 s Hs)
    as (s1 & Hrun1 & E1).
  rewrite !Z.add_0_r in E1.
  destruct (Torus.pattern_gen_steps 1 _ _ 0 0 Torus.vblinker_life x0 y0 s1 E1)
    as (s2 & Hrun2 & E2).
  exists s1. split; [apply Torus.gen_steps_one, Hrun1|]. split; [exact E1|].
  exists s2. split; [apply Torus.gen_steps_one, Hrun2|].
  intros x y Hxy. rewrite (E2 x y Hxy), (Hs x y Hxy), !Z.add_0_r. reflexivity.
Qed.

(** C7: the 5-cell glider at any anchor becomes, after four generation
    steps, the same glider moved by (+1, +1) modulo 40 x 25. *)
Theorem glider_translates (x0 y0 : Z) (s : State) :
  same_cells (logical (current s)) (pattern P_GLIDER x0 y0) ->
  exists s', gen_steps 4 s = Some s' /\
    same_cells (logical (current s')) (pattern P_GLIDER (x0 + 1) (y0 + 1)).
Proof.
  exact (Torus.pattern_gen_steps 4 _ _ 1 1 Torus.glider_life x0 y0 s).
Qed.

Lemma block_is_still_life_witness :
  same_cells (logical (current (draw_preset 12 20 P_BLOCK (clear_grid init_state))))
    (pattern P_BLOCK 19 11) /\
  exists s', gen_step (draw_preset 12 20 P_BLOCK (clear_grid init_state)) = Some s' /\
    same_cells (logical (current s'))
      (logical (current (draw_preset 12 20 P_BLOCK (clear_grid init_state)))).
Proof.
  assert (H : same_cells (logical (current (draw_preset 12 20 P_BLOCK (clear_grid init_state))))
                (pattern P_BLOCK 19 11))
    by (apply Torus.check_cells_ok; vm_compute; reflexivity).
  split; [exact H|]. exact (block_is_still_life 19 11 _ H).
Defined.

Lemma blinker_period_two_witness :
  same_cells (logical (current (draw_preset 12 19 P_BLINKER (clear_grid init_state))))
    (pattern P_BLINKER 18 11) /\
  exists s1, gen_step (draw_preset 12 19 P_BLINKER (clear_grid init_state)) = Some s1 /\
    same_cells (logical (current s1)) (pattern VBLINKER 18 11) /\
    exists s2, gen_step s1 = Some s2 /\
      same_cells (logical (current s2))
        (logical (current (draw_preset 12 19 P_BLINKER (clear_grid init_state)))).
Proof.
  assert (H : same_cells (logical (current (draw_preset 12 19 P_BLINKER (clear_grid init_state))))
                (pattern P_BLINKER 18 11))
    by (apply Torus.check_cells_ok; vm_compute; reflexivity).
  split; [exact H|]. exact (blinker_period_two 18 11 _ H).
Defined.

Lemma glider_translates_witness :
  same_cells (logical (current (draw_preset 11 19 P_GLIDER (clear_grid init_state))))
    (pattern P_GLIDER 18 10) /\
  exists s', gen_steps 4 (draw_preset 11 19 P_GLIDER (clear_grid init_state)) = Some s' /\
    same_cells (logical (current s')) (pattern P_GLIDER (18 + 1) (10 + 1)).
Proof.
  assert (H : same_cells (logical (current (draw_preset 11 19 P_GLIDER (clear_grid init_state))))
                (pattern P_GLIDER 18 10))
    by (apply Torus.check_cells_ok; vm_compute; reflexivity).
  split; [exact H|]. exact (glider_translates 18 10 _ H).
Defined.

(** C2: after [update_borders], every border cell of [current] equals its
    toroidal counterpart: the top and bottom border rows copy interior rows
    25 and 1, the left and right border columns copy interior columns 40
    and 1, and each corner copies the diagonally opposite interior corner. *)
Theorem update_borders_mirrors (s : State) :
  let c := current (update_borders s) in
  (forall x, 1 <= x <= WIDTH ->
     c (IDX 0 x) = c (IDX HEIGHT x) /\ c (IDX (HEIGHT + 1) x) = c (IDX 1 x)) /\
  (forall y, 1 <= y <= HEIGHT ->
     c (IDX y 0) = c (IDX y WIDTH) /\ c (IDX y (WIDTH + 1)) = c (IDX y 1)) /\
  c (IDX 0 0) = c (IDX HEIGHT WIDTH) /\
  c (IDX 0 (WIDTH + 1)) = c (IDX HEIGHT 1) /\
  c (IDX (HEIGHT + 1) 0) = c (IDX 1 WIDTH) /\
  c (IDX (HEIGHT + 1) (WIDTH + 1)) = c (IDX 1 1).
Proof.
  cbn zeta. cbn [update_borders set_current current].
  repeat split; intros;
    rewrite !Borders.update_borders_buf_at by (unfold_consts; lia);
    unfold wrap_coord; unfold_consts; zsplit; zsolve.
Qed.

(** C9: [update_borders] changes only border cells of [current]: the
    interior of [current], every index outside the bordered grid, and all
    of [next], [screenBuf] and the screen are left as they were. *)
Theorem update_borders_frame (s : State) :
  (forall py px, 1 <= py <= HEIGHT -> 1 <= px <= WIDTH ->
     current (update_borders s) (IDX py px) = current s (IDX py px)) /\
  (forall i, i < 0 \/ BHEIGHT * BWIDTH <= i ->
     current (update_borders s) i = current s i) /\
  next (update_borders s) = next s /\
  screenBuf (update_borders s) = screenBuf s /\
  screen (update_borders s) = screen s.
Proof.
  cbn [update_borders set_current current next screenBuf screen].
  split; [|split; [|split; [reflexivity | split; reflexivity]]].
  - intros py px Hy Hx.
    rewrite Borders.update_borders_buf_at by (unfold_consts; lia).
    unfold wrap_coord; unfold_consts; zsplit; zsolve.
  - intros i Hi.
    assert (Hi' : i = IDX (i / BWIDTH) (i mod BWIDTH)).
    { unfold IDX. rewrite Z.mul_comm. apply Z.div_mod. unfold_consts. lia. }
    assert (Hr : 0 <= i mod BWIDTH < BWIDTH).
    { apply Z.mod_pos_bound. unfold_consts. lia. }
    unfold update_borders_buf, memcpy_in.
    rewrite (Borders.hwrap_at _ 1 _ _ i (i / BWIDTH) (i mod BWIDTH)) by
      (try reflexivity; assumption).
    clear Hi'. Z.div_mod_to_equations. unfold_consts. zsplit; zsolve.
Qed.

(** C3: the two 9-entry tables encode B3/S23: [next_from_alive[n]] is 1
    exactly for n = 2, 3; [next_from_dead[n]] is 1 exactly for n = 3; all
    other entries, for 0 <= n <= 8, are 0. *)
Theorem rule_tables_b3s23 (n : Z) : 0 <= n <= 8 ->
  lookup next_from_alive n = Some (if (n =? 2) || (n =? 3) then 1 else 0) /\
  lookup next_from_dead n = Some (if n =? 3 then 1 else 0).
Proof.
  intros Hn.
  assert (n = 0 \/ n = 1 \/ n = 2 \/ n = 3 \/ n = 4 \/ n = 5 \/ n = 6 \/ n = 7 \/ n = 8)
    as Hc by lia.
  repeat destruct Hc as [-> | Hc]; subst; split; reflexivity.
Qed.

Lemma rule_tables_b3s23_witness :
  0 <= 3 <= 8 /\ lookup next_from_alive 3 = Some 1 /\ lookup next_from_dead 3 = Some 1.
Proof.
  split; [lia|]. exact (rule_tables_b3s23 3 ltac:(lia)).
Defined.

(** C4: after any run of [calc_next_gen], the display buffer entry of
    logical cell (x, y), at offset [y * 40 + x], is [LIVE_CHAR] (0x51) if
    the cell of [next] at (x, y) is alive (non-zero) and [DEAD_CHAR] (' ')
    otherwise: it is a function of the next generation only. *)
Theorem calc_next_gen_screen (s s' : State) :
  calc_next_gen s = Some s' ->
  forall x y, in_grid x y ->
  screenBuf s' (y * WIDTH + x) =
    (if next s' (IDX (y + 1) (x + 1)) =? 0 then DEAD_CHAR else LIVE_CHAR) /\
  (screenBuf s' (y * WIDTH + x) = LIVE_CHAR <-> next s' (IDX (y + 1) (x + 1)) <> 0).
Proof.
  intros Hrun x y [Hx Hy].
  destruct (Step.calc_next_gen_spec s (Step.calc_next_gen_defined s s' Hrun))
    as (s2 & Hrun2 & _ & _ & Hn & Hs).
  rewrite Hrun in Hrun2. injection Hrun2 as <-.
  assert (Hsb : screenBuf s' (y * WIDTH + x) =
                glyph (next s' (IDX (y + 1) (x + 1)))).
  { rewrite Hs by exact Hx. rewrite Hn by (unfold_consts; lia).
    replace ((0 <=? y) && (y <? HEIGHT)) with true by (zsplit; lia).
    replace ((1 <=? y + 1) && (y + 1 <=? HEIGHT) && (1 <=? x + 1) && (x + 1 <=? WIDTH))
      with true by (unfold_consts; zsplit; lia).
    reflexivity. }
  rewrite Hsb. unfold glyph. split; [reflexivity|].
  unfold LIVE_CHAR, DEAD_CHAR. zsplit; split; intro; congruence || lia.
Qed.

Lemma calc_next_gen_screen_witness :
  exists s', calc_next_gen blinker_state = Some s' /\
  next s' (IDX (10 + 1) (19 + 1)) = 1 /\ next s' (IDX (11 + 1) (18 + 1)) = 0 /\
  (screenBuf s' (10 * WIDTH + 19) =
     (if next s' (IDX (10 + 1) (19 + 1)) =? 0 then DEAD_CHAR else LIVE_CHAR) /\
   (screenBuf s' (10 * WIDTH + 19) = LIVE_CHAR <-> next s' (IDX (10 + 1) (19 + 1)) <> 0)) /\
  (screenBuf s' (11 * WIDTH + 18) =
     (if next s' (IDX (11 + 1) (18 + 1)) =? 0 then DEAD_CHAR else LIVE_CHAR) /\
   (screenBuf s' (11 * WIDTH + 18) = LIVE_CHAR <-> next s' (IDX (11 + 1) (18 + 1)) <> 0)) /\
  screenBuf s' (10 * WIDTH + 19) = LIVE_CHAR /\ screenBuf s' (11 * WIDTH + 18) = DEAD_CHAR.
Proof.
  assert (Hn : option_map (fun t => (next t (IDX (10 + 1) (19 + 1)), next t (IDX (11 + 1) (18 + 1))))
                 (calc_next_gen blinker_state) = Some (1, 0))
    by (vm_compute; reflexivity).
  destruct (calc_next_gen blinker_state) as [s'|] eqn:E; [|discriminate Hn].
  injection Hn as Hbirth Hdeath.
  pose proof (calc_next_gen_screen blinker_state s' E 19 10) as Hs1.
  pose proof (calc_next_gen_screen blinker_state s' E 18 11) as Hs2.
  destruct Hs1 as [Hs1 Hl1]; [unfold in_grid, WIDTH, HEIGHT; lia|].
  destruct Hs2 as [Hs2 Hl2]; [unfold in_grid, WIDTH, HEIGHT; lia|].
  exists s'. split; [reflexivity|]. split; [exact Hbirth|]. split; [exact Hdeath|].
  split; [split; [exact Hs1 | exact Hl1]|]. split; [split; [exact Hs2 | exact Hl2]|].
  split.
  - apply Hl1. replace (next s' (IDX (10 + 1) (19 + 1))) with 1 by (symmetry; exact Hbirth).
    discriminate.
  - rewrite Hs2. replace (next s' (IDX (11 + 1) (18 + 1))) with 0 by (symmetry; exact Hdeath).
    reflexivity.
Defined.

(** C1: on a current buffer of 0/1 cells, [calc_next_gen] succeeds and
    writes at every logical cell (x, y) of [next] the B3/S23 rule applied
    to [current]: the cell is alive (1) iff the sum of its eight
    neighbours in [current] is 3, or it is alive in [current] and the sum
    is 2; otherwise it is dead (0).  (The neighbours read are the physical
    ones; once the borders are mirrored they are the toroidal ones, see
    [Torus.gen_step_life].)  The values written depend on [current] only:
    any state with the same [current], whatever its [next] and
    [screenBuf], gets the same logical cells of [next] and the same
    display buffer, so the order in which cells are visited is
    irrelevant. *)
Theorem calc_next_gen_rule (s : State) :
  (forall i, 0 <= i < BHEIGHT * BWIDTH -> binary (current s i)) ->
  exists s', calc_next_gen s = Some s' /\
  (forall x y, in_grid x y ->
     binary (next s' (IDX (y + 1) (x + 1))) /\
     (next s' (IDX (y + 1) (x + 1)) = 1 <->
        neighbour_sum (current s) ((y + 1) * BWIDTH) (x + 1) = 3 \/
        (current s (IDX (y + 1) (x + 1)) = 1 /\
         neighbour_sum (current s) ((y + 1) * BWIDTH) (x + 1) = 2))) /\
  (forall t t', current t = current s -> calc_next_gen t = Some t' ->
     forall x y, in_grid x y ->
       next t' (IDX (y + 1) (x + 1)) = next s' (IDX (y + 1) (x + 1)) /\
       screenBuf t' (y * WIDTH + x) = screenBuf s' (y * WIDTH + x)).
Proof.
  intros Hb.
  assert (Hv : forall py px, 1 <= py <= HEIGHT -> 1 <= px <= WIDTH ->
            next_value (current s) (py * BWIDTH) px =
            Some (b3s23 (current s (py * BWIDTH + px))
                        (neighbour_sum (current s) (py * BWIDTH) px))).
  { intros py px Hpy Hpx. apply Step.next_value_binary.
    intros i Hi. apply Hb. unfold_consts. lia. }
  destruct (Step.calc_next_gen_spec s) as (s' & Hrun & _ & _ & Hn & Hs).
  { intros py px Hpy Hpx. rewrite Hv by assumption. discriminate. }
  exists s'. split; [exact Hrun|]. split.
  - intros x y [Hx Hy].
    rewrite Hn by (unfold_consts; lia).
    replace ((1 <=? y + 1) && (y + 1 <=? HEIGHT) && (1 <=? x + 1) && (x + 1 <=? WIDTH))
      with true by (unfold_consts; zsplit; lia).
    unfold rule_val. rewrite Hv by (unfold_consts; lia).
    split; [apply Torus.b3s23_binary|]. unfold IDX, b3s23.
    set (n := neighbour_sum _ _ _). set (a := current s _).
    destruct (Z.eqb_spec n 3), (Z.eqb_spec a 1), (Z.eqb_spec n 2); cbn [orb andb];
      split; intros; first [lia | tauto | discriminate | idtac].
    all: destruct H as [H | [H1 H2]]; lia.
  - intros t t' Hct Hrun' x y [Hx Hy].
    destruct (Step.calc_next_gen_spec t) as (t2 & Hrun2 & _ & _ & Hn' & Hs').
    { rewrite Hct. intros py px Hpy Hpx. rewrite Hv by assumption. discriminate. }
    rewrite Hrun' in Hrun2. injection Hrun2 as <-.
    rewrite Hn', Hn, Hs', Hs, Hct by (unfold_consts; lia).
    unfold_consts. zsplit; try lia; split; reflexivity.
Qed.

Lemma calc_next_gen_rule_witness :
  (forall i, 0 <= i < BHEIGHT * BWIDTH -> binary (current blinker_state i)) /\
  (exists s', calc_next_gen blinker_state = Some s' /\
  (forall x y, in_grid x y ->
     binary (next s' (IDX (y + 1) (x + 1))) /\
     (next s' (IDX (y + 1) (x + 1)) = 1 <->
        neighbour_sum (current blinker_state) ((y + 1) * BWIDTH) (x + 1) = 3 \/
        (current blinker_state (IDX (y + 1) (x + 1)) = 1 /\
         neighbour_sum (current blinker_state) ((y + 1) * BWIDTH) (x + 1) = 2))) /\
  (forall t t', current t = current blinker_state -> calc_next_gen t = Some t' ->
     forall x y, in_grid x y ->
       next t' (IDX (y + 1) (x + 1)) = next s' (IDX (y + 1) (x + 1)) /\
       screenBuf t' (y * WIDTH + x) = screenBuf s' (y * WIDTH + x))) /\
  exists s', calc_next_gen blinker_state = Some s' /\
    (* birth above the middle of the blinker *)
    current blinker_state (IDX 11 20) = 0 /\
    neighbour_sum (current blinker_state) (11 * BWIDTH) 20 = 3 /\
    next s' (IDX 11 20) = 1 /\
    (* survival of its middle cell *)
    current blinker_state (IDX 12 20) = 1 /\
    neighbour_sum (current blinker_state) (12 * BWIDTH) 20 = 2 /\
    next s' (IDX 12 20) = 1 /\
    (* death of its left end *)
    current blinker_state (IDX 12 19) = 1 /\
    neighbour_sum (current blinker_state) (12 * BWIDTH) 19 = 1 /\
    next s' (IDX 12 19) = 0.
Proof.
  assert (H : forall i, 0 <= i < BHEIGHT * BWIDTH -> binary (current blinker_state i)).
  { assert (H0 : binary_state init_state) by (split; intros i _; left; reflexivity).
    exact (proj1 (MainLoop.binary_preset _ _ _ _ (MainLoop.binary_clear_grid _ H0))). }
  pose proof (calc_next_gen_rule blinker_state H) as Hr.
  split; [exact H|]. split; [exact Hr|].
  destruct Hr as (s' & Hrun & Hrule & _).
  exists s'. split; [exact Hrun|].
  assert (Hb : current blinker_state (IDX 11 20) = 0) by (vm_compute; reflexivity).
  assert (Hm : current blinker_state (IDX 12 20) = 1) by (vm_compute; reflexivity).
  assert (Hl : current blinker_state (IDX 12 19) = 1) by (vm_compute; reflexivity).
  assert (Nb : neighbour_sum (current blinker_state) (11 * BWIDTH) 20 = 3)
    by (vm_compute; reflexivity).
  assert (Nm : neighbour_sum (current blinker_state) (12 * BWIDTH) 20 = 2)
    by (vm_compute; reflexivity).
  assert (Nl : neighbour_sum (current blinker_state) (12 * BWIDTH) 19 = 1)
    by (vm_compute; reflexivity).
  destruct (Hrule 19 10) as [_ Rb]; [unfold in_grid, WIDTH, HEIGHT; lia|].
  destruct (Hrule 19 11) as [_ Rm]; [unfold in_grid, WIDTH, HEIGHT; lia|].
  destruct (Hrule 18 11) as [Bl Rl]; [unfold in_grid, WIDTH, HEIGHT; lia|].
  change (10 + 1) with 11 in Rb. change (11 + 1) with 12 in Rm, Rl.
  change (19 + 1) with 20 in Rb, Rm. change (18 + 1) with 19 in Bl, Rl.
  change (11 + 1) with 12 in Bl.
  split; [exact Hb|]. split; [exact Nb|]. split; [apply Rb; left; exact Nb|].
  split; [exact Hm|]. split; [exact Nm|]. split; [apply Rm; right; split; assumption|].
  split; [exact Hl|]. split; [exact Nl|].
  destruct Bl as [E | E]; [exact E|].
  exfalso. rewrite Nl in Rl. destruct (proj1 Rl E) as [F | [_ F]]; discriminate F.
Defined.

(** C8: [draw_preset y0 x0 pts] takes its anchor in the 1-based coordinates
    of the bordered grid, so pattern point (dx, dy) has absolute logical
    coordinate (x0 + dx - 1, y0 + dy - 1).  It sets to 1 exactly the
    logical cells that are the absolute coordinate of some pattern point;
    points whose absolute coordinate falls outside [0,40) x [0,25) write
    nothing: every other index of [current] (border cells, other logical
    cells, memory around the grid) keeps its value, and [next] is
    unchanged.  [draw_preset] is a total function: it cannot fail. *)
Theorem draw_preset_clips (y0 x0 : Z) (pts : list (Z * Z)) (s : State) :
  (forall x y, in_grid x y ->
     current (draw_preset y0 x0 pts s) (IDX (y + 1) (x + 1)) =
     if existsb (fun p => (x0 + fst p - 1 =? x) && (y0 + snd p - 1 =? y)) pts
     then 1 else current s (IDX (y + 1) (x + 1))) /\
  (forall i, (forall x y, in_grid x y -> i <> IDX (y + 1) (x + 1)) ->
     current (draw_preset y0 x0 pts s) i = current s i) /\
  next (draw_preset y0 x0 pts s) = next s.
Proof.
  destruct (Preset.stamp_points y0 x0 pts s) as [Hc Hn].
  unfold draw_preset, update_display. cbn [current next].
  split; [|split; [|exact Hn]].
  - intros x y [Hx Hy]. rewrite Hc.
    rewrite (Torus.existsb_pointwise _
               (fun p => (x0 + fst p - 1 =? x) && (y0 + snd p - 1 =? y))).
    + reflexivity.
    + intros [dx dy]. unfold stamps. cbn [fst snd]. unfold_consts. zsplit; zsolve.
  - intros i Hi. rewrite Hc.
    rewrite (Torus.existsb_pointwise _ (fun _ => false)).
    + clear. induction pts as [|p pts IH]; cbn; [reflexivity | exact IH].
    + intros [dx dy]. unfold stamps. cbn [fst snd].
      destruct (_ && _) eqn:E; [exfalso | reflexivity].
      rewrite !andb_true_iff, !Z.leb_le, Z.eqb_eq in E.
      destruct E as [[[[E1 E2] E3] E4] E5].
      apply (Hi (x0 + dx - 1) (y0 + dy - 1)).
      * unfold in_grid. unfold_consts. lia.
      * rewrite <- E5. f_equal; lia.
Qed.

(** C10: every state the program reaches keeps every cell of both grid
    buffers in {0,1} (random seeding, clearing, the editor's toggle and row
    clear, preset stamping, border mirroring and the generation step all
    preserve it).  Consequently the byte [neighbours] computed by
    [calc_next_gen] for every interior cell is the untruncated sum and lies
    in 0..8, every table lookup is in bounds, and [calc_next_gen] never
    reaches the out-of-range case. *)
Theorem reachable_lookups_in_bounds (s : State) :
  reachable s ->
  binary_state s /\
  (forall py px, 1 <= py <= HEIGHT -> 1 <= px <= WIDTH ->
     neighbours (current s) (py * BWIDTH) px =
       neighbour_sum (current s) (py * BWIDTH) px /\
     0 <= neighbours (current s) (py * BWIDTH) px <= 8 /\
     next_value (current s) (py * BWIDTH) px <> None) /\
  exists s', calc_next_gen s = Some s'.
Proof.
  intros Hr. pose proof (Invariant.reachable_binary_state s Hr) as Hb.
  assert (Hcell : forall py px, 1 <= py <= HEIGHT -> 1 <= px <= WIDTH ->
            neighbours (current s) (py * BWIDTH) px =
              neighbour_sum (current s) (py * BWIDTH) px /\
            0 <= neighbours (current s) (py * BWIDTH) px <= 8 /\
            next_value (current s) (py * BWIDTH) px <> None).
  { intros py px Hpy Hpx.
    destruct (Step.next_value_binary (current s) (py * BWIDTH) px) as [Hs Hv].
    { intros j Hj. apply (proj1 Hb). unfold_consts. lia. }
    unfold neighbours. rewrite Z.mod_small by lia.
    split; [reflexivity|]. split; [exact Hs|]. rewrite Hv. discriminate. }
  split; [exact Hb|]. split; [exact Hcell|].
  destruct (Step.calc_next_gen_spec s) as (s' & Hrun & _).
  { intros py px Hpy Hpx. apply (Hcell py px Hpy Hpx). }
  exists s'. exact Hrun.
Qed.

Lemma reachable_lookups_in_bounds_witness :
  reachable chain_state /\
  (binary_state chain_state /\
   (forall py px, 1 <= py <= HEIGHT -> 1 <= px <= WIDTH ->
      neighbours (current chain_state) (py * BWIDTH) px =
        neighbour_sum (current chain_state) (py * BWIDTH) px /\
      0 <= neighbours (current chain_state) (py * BWIDTH) px <= 8 /\
      next_value (current chain_state) (py * BWIDTH) px <> None) /\
   exists s', calc_next_gen chain_state = Some s') /\
  neighbours (current chain_state) (12 * BWIDTH) 3 = 4.
Proof.
  assert (Hr0 : reachable chain_start).
  { unfold chain_start.
    apply reach_borders, reach_display, reach_build_screen, reach_clear_row, reach_toggle,
      reach_preset, reach_random, reach_clear, reach_init. }
  assert (Hr : reachable chain_state).
  { unfold chain_state. destruct (calc_next_gen chain_start) as [t|] eqn:E.
    - apply reach_swap. exact (reach_calc _ _ Hr0 E).
    - exact Hr0. }
  split; [exact Hr|]. split; [exact (reachable_lookups_in_bounds chain_state Hr)|].
  vm_compute. reflexivity.
Defined.

(** * Further properties of the program *)

(** X1: [initialize_grid_random] sets each logical cell (x, y) of
    [current] to bit 0 of the (y * 40 + x)-th value returned by [rand],
    and every other cell of the bordered buffer to 0. Memory outside the
    buffer is not written. Afterwards the display buffer shows the new
    grid. [next], the screen and the bytes outside the display buffer
    are unchanged. *)
Theorem initialize_grid_random_cells (rnd : nat -> Z) (s : State) :
  let s' := initialize_grid_random rnd s in
  (forall x y, in_grid x y ->
     current s' (IDX (y + 1) (x + 1)) = Z.land (rnd (Z.to_nat (y * WIDTH + x))) 1) /\
  (forall i, 0 <= i < BHEIGHT * BWIDTH ->
     (forall x y, in_grid x y -> i <> IDX (y + 1) (x + 1)) -> current s' i = 0) /\
  (forall i, i < 0 \/ BHEIGHT * BWIDTH <= i -> current s' i = current s i) /\
  buf_shows s' /\
  (forall j, j < 0 \/ WIDTH * HEIGHT <= j -> screenBuf s' j = screenBuf s j) /\
  next s' = next s /\ screen s' = screen s.
Proof.
  cbv zeta. unfold initialize_grid_random.
  destruct (random_rows_at (Z.to_nat HEIGHT) rnd O 1
              (memset (current s) 0 0 (BHEIGHT * BWIDTH), screenBuf s)) as [Hc Hs].
  destruct (random_rows _ _ _ _ _) as [c' sb'] eqn:E. cbn [fst snd] in Hc, Hs.
  change (Z.of_nat (Z.to_nat HEIGHT)) with 25 in *.
  cbn [current next screenBuf screen].
  assert (Hcell : forall x y, in_grid x y ->
            c' (IDX (y + 1) (x + 1)) = Z.land (rnd (Z.to_nat (y * WIDTH + x))) 1).
  { intros x y [Hx Hy]. rewrite Hc by (unfold_consts; lia).
    unfold_consts. zsplit; try lia. rewrite rand_bit_small. do 2 f_equal. lia. }
  split; [exact Hcell|]. split; [|split; [|split; [|split; [|split; reflexivity]]]].
  - intros i Hi Hni. destruct (idx_split i) as [Hi' Hr].
    rewrite Hi', Hc by exact Hr. rewrite <- Hi'.
    destruct (_ && _ && _ && _) eqn:Ein.
    + exfalso. rewrite !andb_true_iff, !Z.leb_le, !Z.ltb_lt in Ein.
      apply (Hni (i mod BWIDTH - 1) (i / BWIDTH - 1)).
      * unfold in_grid. unfold_consts. lia.
      * rewrite Hi' at 1. f_equal; lia.
    + unfold memset. zsplit; lia.
  - intros i Hi. destruct (idx_split i) as [Hi' Hr].
    rewrite Hi', Hc by exact Hr. rewrite <- Hi'.
    unfold memset. clear Hi'. Z.div_mod_to_equations. unfold_consts. zsplit; zsolve.
  - intros x y Hxy. rewrite Hs by (destruct Hxy; lia). rewrite Hcell by exact Hxy.
    destruct Hxy as [Hx Hy]. rewrite rand_bit_small.
    unfold_consts. zsplit; try lia. do 4 f_equal. lia.
  - intros j Hj. destruct (split_index j) as [Hj' Hr].
    rewrite Hj', Hs by exact Hr. rewrite <- Hj'. clear Hj'.
    Z.div_mod_to_equations. unfold_consts. zsplit; zsolve.
Qed.

(** X2: [build_screen_from_current] followed by [update_display] puts on
    the screen and in the display buffer the glyph of every logical cell
    of [current]. It changes neither grid, and no byte outside the 1000
    display bytes. *)
Theorem build_then_display (s : State) :
  let s' := update_display (build_screen_from_current s) in
  buf_shows s' /\ screen_shows s' /\
  (forall j, j < 0 \/ WIDTH * HEIGHT <= j ->
     screenBuf s' j = screenBuf s j /\ screen s' j = screen s j) /\
  current s' = current s /\ next s' = next s.
Proof.
  cbv zeta. destruct (build_screen_at s) as (Hb & Ho & Hc & Hn & Hs).
  split; [exact Hb|]. split; [apply display_shows|].
  split; [|split; assumption].
  intros j Hj. split; [exact (Ho j Hj)|].
  unfold update_display, memcpy_to. cbn [screen]. rewrite Hs.
  unfold WIDTH, HEIGHT in *. zsplit; zsolve.
Qed.

(** X3: [clear_grid] sets every byte of the bordered [current] buffer to
    0 and every byte of the display buffer and of the screen to the blank
    glyph. It writes no memory outside those buffers and leaves [next]
    unchanged. *)
Theorem clear_grid_blank (s : State) :
  let s' := clear_grid s in
  (forall i, 0 <= i < BHEIGHT * BWIDTH -> current s' i = 0) /\
  (forall i, i < 0 \/ BHEIGHT * BWIDTH <= i -> current s' i = current s i) /\
  (forall j, 0 <= j < WIDTH * HEIGHT -> screenBuf s' j = DEAD_CHAR /\ screen s' j = DEAD_CHAR) /\
  (forall j, j < 0 \/ WIDTH * HEIGHT <= j ->
     screenBuf s' j = screenBuf s j /\ screen s' j = screen s j) /\
  next s' = next s.
Proof.
  cbv zeta. unfold clear_grid, update_display, memcpy_to, memset.
  cbn [current next screenBuf screen].
  change (Z.of_nat (Z.to_nat HEIGHT)) with 25.
  split; [|split; [|split; [|split; [|reflexivity]]]]; intros j Hj;
    rewrite ?blank_rows_at; change (Z.of_nat (Z.to_nat HEIGHT)) with 25;
    unfold_consts; zsplit; zsolve; split; reflexivity.
Qed.

(** X4: the editor's C key on cursor row [cy] zeroes the 40 interior
    cells of that row of [current] and blanks that row of the display
    buffer and of the screen. Every other byte of [current], of the
    display buffer and of the screen, and all of [next], are unchanged. *)
Theorem clear_row_cells (cy : Z) (s : State) :
  let s' := clear_row cy s in
  (forall x, 1 <= x <= WIDTH -> current s' (IDX cy x) = 0) /\
  (forall i, (forall x, 1 <= x <= WIDTH -> i <> IDX cy x) -> current s' i = current s i) /\
  (forall x, 0 <= x < WIDTH ->
     screenBuf s' ((cy - 1) * WIDTH + x) = DEAD_CHAR /\
     screen s' ((cy - 1) * WIDTH + x) = DEAD_CHAR) /\
  (forall j, (forall x, 0 <= x < WIDTH -> j <> (cy - 1) * WIDTH + x) ->
     screenBuf s' j = screenBuf s j /\ screen s' j = screen s j) /\
  next s' = next s.
Proof.
  cbv zeta. unfold clear_row, memset. cbn [current next screenBuf screen].
  split; [|split; [|split; [|split; [|reflexivity]]]].
  - intros x Hx. rewrite zero_row_at. change (Z.of_nat (Z.to_nat WIDTH)) with 40.
    unfold_consts. zsplit; zsolve.
  - intros i Hi. rewrite zero_row_at. change (Z.of_nat (Z.to_nat WIDTH)) with 40.
    destruct (_ && _) eqn:E; [exfalso | reflexivity].
    rewrite andb_true_iff, Z.leb_le, Z.ltb_lt in E.
    apply (Hi (i - IDX cy 0)); unfold_consts; lia.
  - intros x Hx. unfold WIDTH in *. zsplit; zsolve; split; reflexivity.
  - intros j Hj. zsplit; try (split; reflexivity).
    all: exfalso; apply (Hj (j - (cy - 1) * WIDTH)); unfold WIDTH in *; lia.
Qed.

(** X5: on a 0/1 cell, the editor's SPACE key flips the cell under the
    cursor (v becomes 1 - v) and writes its glyph at the cursor position
    of the display buffer and of the screen. No other byte of [current],
    the display buffer or the screen changes, and [next] is unchanged.
    Toggling twice restores every byte of [current]. *)
Theorem toggle_cell_flips (cy cx : Z) (s : State) :
  binary (current s (IDX cy cx)) ->
  let s' := toggle_cell cy cx s in
  current s' (IDX cy cx) = 1 - current s (IDX cy cx) /\
  (forall i, i <> IDX cy cx -> current s' i = current s i) /\
  screenBuf s' (cursor_pos cx cy) = glyph (current s' (IDX cy cx)) /\
  screen s' (cursor_pos cx cy) = screenBuf s' (cursor_pos cx cy) /\
  (forall j, j <> cursor_pos cx cy -> screenBuf s' j = screenBuf s j /\ screen s' j = screen s j) /\
  next s' = next s /\
  (forall i, current (toggle_cell cy cx s') i = current s i).
Proof.
  intros Hb. cbv zeta. unfold toggle_cell, cursor_pos, upd. cbn [current next screenBuf screen].
  rewrite !Z.eqb_refl.
  assert (Hv : forall v, binary v -> Z.lxor v 1 mod 256 = 1 - v).
  { intros v [-> | ->]; reflexivity. }
  split; [apply Hv, Hb|]. split; [intros i Hi; apply Z.eqb_neq in Hi; rewrite Hi; reflexivity|].
  split; [reflexivity|]. split; [reflexivity|].
  split; [intros j Hj; apply Z.eqb_neq in Hj; rewrite Hj; split; reflexivity|].
  split; [reflexivity|].
  intros i. destruct (Z.eqb_spec i (IDX cy cx)) as [->|]; [|reflexivity].
  destruct Hb as [E | E]; rewrite E; reflexivity.
Qed.

Lemma toggle_cell_flips_witness :
  binary (current init_state (IDX 12 20)) /\
  let s' := toggle_cell 12 20 init_state in
  current s' (IDX 12 20) = 1 - current init_state (IDX 12 20) /\
  (forall i, i <> IDX 12 20 -> current s' i = current init_state i) /\
  screenBuf s' (cursor_pos 20 12) = glyph (current s' (IDX 12 20)) /\
  screen s' (cursor_pos 20 12) = screenBuf s' (cursor_pos 20 12) /\
  (forall j, j <> cursor_pos 20 12 ->
     screenBuf s' j = screenBuf init_state j /\ screen s' j = screen init_state j) /\
  next s' = next init_state /\
  (forall i, current (toggle_cell 12 20 s') i = current init_state i).
Proof.
  assert (Hb : binary (current init_state (IDX 12 20))) by (left; vm_compute; reflexivity).
  split; [exact Hb | exact (toggle_cell_flips 12 20 init_state Hb)].
Defined.

(** X6: from a cursor inside the 40 x 25 grid, every key leaves the
    cursor inside the grid: the cursor keys wrap around at the edges.
    LEFT undoes RIGHT, RIGHT undoes LEFT, UP undoes DOWN and DOWN undoes
    UP. *)
Theorem move_cursor_wraps (key cx cy : Z) :
  1 <= cx <= WIDTH -> 1 <= cy <= HEIGHT ->
  (1 <= fst (move_cursor key cx cy) <= WIDTH /\ 1 <= snd (move_cursor key cx cy) <= HEIGHT) /\
  move_cursor KEY_LEFT (fst (move_cursor KEY_RIGHT cx cy)) cy = (cx, cy) /\
  move_cursor KEY_RIGHT (fst (move_cursor KEY_LEFT cx cy)) cy = (cx, cy) /\
  move_cursor KEY_UP cx (snd (move_cursor KEY_DOWN cx cy)) = (cx, cy) /\
  move_cursor KEY_DOWN cx (snd (move_cursor KEY_UP cx cy)) = (cx, cy).
Proof.
  intros Hx Hy. unfold WIDTH, HEIGHT in *. split.
  - unfold move_cursor. rewrite !Z.gtb_ltb.
    destruct (key =? KEY_UP); [|destruct (key =? KEY_DOWN);
      [|destruct (key =? KEY_LEFT); [|destruct (key =? KEY_RIGHT)]]];
      cbn [fst snd]; unfold WIDTH, HEIGHT; zsplit; lia.
  - unfold move_cursor, KEY_UP, KEY_DOWN, KEY_LEFT, KEY_RIGHT. rewrite !Z.gtb_ltb.
    cbv [Z.eqb Pos.eqb]. cbn [fst snd]. unfold WIDTH, HEIGHT.
    repeat split.
    + destruct (Z.ltb_spec cx 40); zsplit; f_equal; lia.
    + destruct (Z.ltb_spec 1 cx); zsplit; f_equal; lia.
    + destruct (Z.ltb_spec cy 25); zsplit; f_equal; lia.
    + destruct (Z.ltb_spec 1 cy); zsplit; f_equal; lia.
Qed.

Lemma move_cursor_wraps_witness :
  (1 <= 40 <= WIDTH /\ 1 <= 1 <= HEIGHT) /\
  (1 <= fst (move_cursor KEY_UP 40 1) <= WIDTH /\ 1 <= snd (move_cursor KEY_UP 40 1) <= HEIGHT) /\
  move_cursor KEY_LEFT (fst (move_cursor KEY_RIGHT 40 1)) 1 = (40, 1) /\
  move_cursor KEY_RIGHT (fst (move_cursor KEY_LEFT 40 1)) 1 = (40, 1) /\
  move_cursor KEY_UP 40 (snd (move_cursor KEY_DOWN 40 1)) = (40, 1) /\
  move_cursor KEY_DOWN 40 (snd (move_cursor KEY_UP 40 1)) = (40, 1).
Proof.
  assert (Hx : 1 <= 40 <= WIDTH) by (unfold WIDTH; lia).
  assert (Hy : 1 <= 1 <= HEIGHT) by (unfold HEIGHT; lia).
  split; [split; assumption | exact (move_cursor_wraps KEY_UP 40 1 Hx Hy)].
Defined.

(** X7: [set_uppercase] clears bit 1 of the $D018 register and
    [set_lowercase] sets it. Both keep bits 0 and 2..7 and leave a byte
    value. Neither changes the grids, the display buffer or the screen. *)
Theorem charset_bit (m : Machine) :
  Z.testbit (d018 (set_uppercase m)) 1 = false /\
  Z.testbit (d018 (set_lowercase m)) 1 = true /\
  (forall n, 0 <= n < 8 -> n <> 1 ->
     Z.testbit (d018 (set_uppercase m)) n = Z.testbit (d018 m) n /\
     Z.testbit (d018 (set_lowercase m)) n = Z.testbit (d018 m) n) /\
  0 <= d018 (set_uppercase m) < 256 /\ 0 <= d018 (set_lowercase m) < 256 /\
  st (set_uppercase m) = st m /\ st (set_lowercase m) = st m.
Proof.
  unfold set_uppercase, set_lowercase. cbn [d018 st].
  assert (H2 : forall n, 0 <= n -> n <> 1 -> Z.testbit 2 n = false).
  { intros n Hn Hn1. change 2 with (2 ^ 1). rewrite Z.pow2_bits_eqb by lia.
    apply Z.eqb_neq. lia. }
  split; [|split; [|split; [|split; [apply Z.mod_pos_bound; lia
                                   |split; [apply Z.mod_pos_bound; lia|split; reflexivity]]]]].
  - rewrite testbit_byte, Z.land_spec, Z.lnot_spec by lia. apply andb_false_r.
  - rewrite testbit_byte, Z.lor_spec by lia. apply orb_true_r.
  - intros n Hn Hn1. rewrite !testbit_byte by lia.
    rewrite Z.land_spec, Z.lor_spec, Z.lnot_spec, H2 by lia.
    rewrite andb_true_r, orb_false_r. split; reflexivity.
Qed.

(** X8: after its key, [show_presets_menu] leaves a grid shown in the
    display buffer and on the screen, with [next] unchanged. B/b loads
    exactly the block at (x, y) = (20, 12), N/n the blinker at (19, 12),
    G/g the glider at (19, 11) and U/u the glider gun at (2, 3): every
    other cell of the bordered buffer is 0, and no point of the pattern
    is clipped. Any other key keeps [current] as it was. *)
Theorem presets_key_loads (key : Z) (s : State) :
  let s' := presets_key key s in
  buf_shows s' /\ screen_shows s' /\ next s' = next s /\
  ((key = 98 \/ key = 66) -> holds_exactly (current s') 12 20 P_BLOCK /\ unclipped 12 20 P_BLOCK) /\
  ((key = 110 \/ key = 78) ->
     holds_exactly (current s') 12 19 P_BLINKER /\ unclipped 12 19 P_BLINKER) /\
  ((key = 103 \/ key = 71) ->
     holds_exactly (current s') 11 19 P_GLIDER /\ unclipped 11 19 P_GLIDER) /\
  ((key = 117 \/ key = 85) -> holds_exactly (current s') 3 2 P_GGUN /\ unclipped 3 2 P_GGUN) /\
  (~ In key [98; 66; 110; 78; 103; 71; 117; 85] -> current s' = current s).
Proof.
  cbv zeta. unfold presets_key.
  change (Z.quot WIDTH 2) with 20. change (Z.quot HEIGHT 2) with 12.
  cbv zeta. cbn [Z.sub].
  match goal with |- context [build_screen_from_current ?x] => set (s1 := x) end.
  destruct (build_screen_at s1) as (Hb & _ & Hc & Hn & _).
  split; [exact Hb|]. split; [apply display_shows|].
  cbn [update_display current next]. rewrite Hc, Hn. clear Hb Hc Hn.
  assert (Hu : forall y0 x0 pts, unclipped y0 x0 pts <->
            forallb (fun p => (1 <=? y0 + snd p) && (y0 + snd p <=? HEIGHT) &&
                              (1 <=? x0 + fst p) && (x0 + fst p <=? WIDTH)) pts = true).
  { intros y0 x0 pts. unfold unclipped. rewrite forallb_forall, Forall_forall.
    split; intros H p Hp; specialize (H p Hp);
      rewrite ?andb_true_iff, ?Z.leb_le in *; tauto. }
  subst s1.
  split; [|split; [|split; [|split; [|split]]]].
  - repeat match goal with |- context [if ?b then _ else _] => destruct b end;
      try apply preset_on_clear; reflexivity.
  - intros [-> | ->]; (split; [apply preset_on_clear | apply Hu; reflexivity]).
  - intros [-> | ->]; (split; [apply preset_on_clear | apply Hu; reflexivity]).
  - intros [-> | ->]; (split; [apply preset_on_clear | apply Hu; reflexivity]).
  - intros [-> | ->]; (split; [apply preset_on_clear | apply Hu; reflexivity]).
  - intros Hk. cbn [In] in Hk.
    repeat match goal with |- context [Z.eqb key ?v] =>
      destruct (Z.eqb_spec key v); [exfalso; apply Hk; subst; tauto|] end.
    reflexivity.
Qed.

(** X9: a run of [calc_next_gen] writes only the interior cells of
    [next] and the 1000 bytes of the display buffer. [current], the
    screen, the border cells of [next] and the memory around the display
    buffer are unchanged. *)
Theorem calc_next_gen_frame (s s' : State) :
  calc_next_gen s = Some s' ->
  current s' = current s /\ screen s' = screen s /\
  (forall i, (forall py px, 1 <= py <= HEIGHT -> 1 <= px <= WIDTH -> i <> IDX py px) ->
     next s' i = next s i) /\
  (forall j, j < 0 \/ WIDTH * HEIGHT <= j -> screenBuf s' j = screenBuf s j).
Proof.
  intros Hrun.
  destruct (Step.calc_next_gen_spec s (Step.calc_next_gen_defined s s' Hrun))
    as (s2 & Hrun2 & Hcur & Hscr & Hn & Hs).
  rewrite Hrun in Hrun2. injection Hrun2 as <-.
  split; [exact Hcur|]. split; [exact Hscr|]. split.
  - intros i Hi. destruct (idx_split i) as [Hi' Hr].
    rewrite Hi', Hn by exact Hr. rewrite <- Hi'.
    destruct (_ && _ && _ && _) eqn:E; [exfalso | reflexivity].
    rewrite !andb_true_iff, !Z.leb_le in E.
    apply (Hi (i / BWIDTH) (i mod BWIDTH)); [lia | lia | exact Hi'].
  - intros j Hj. destruct (split_index j) as [Hj' Hr].
    rewrite Hj', Hs by exact Hr. rewrite <- Hj'. clear Hj'.
    Z.div_mod_to_equations. unfold_consts. zsplit; zsolve.
Qed.

Lemma calc_next_gen_frame_witness :
  exists s', calc_next_gen seam_glider_next = Some s' /\
  (current s' = current seam_glider_next /\ screen s' = screen seam_glider_next /\
   (forall i, (forall py px, 1 <= py <= HEIGHT -> 1 <= px <= WIDTH -> i <> IDX py px) ->
      next s' i = next seam_glider_next i) /\
   (forall j, j < 0 \/ WIDTH * HEIGHT <= j -> screenBuf s' j = screenBuf seam_glider_next j)) /\
  (* a border cell of [next] keeps the live cell mirrored there one generation earlier *)
  next seam_glider_next (IDX 0 20) = 1 /\ next s' (IDX 0 20) = 1 /\
  (* interior cells of [next] are overwritten with the new generation *)
  next seam_glider_next (IDX 1 20) = 0 /\ next s' (IDX 1 20) = 1 /\
  next seam_glider_next (IDX 23 20) = 1 /\ next s' (IDX 23 20) = 0.
Proof.
  assert (Hn : option_map (fun t => (next t (IDX 1 20), next t (IDX 23 20)))
                 (calc_next_gen seam_glider_next) = Some (1, 0))
    by (vm_compute; reflexivity).
  destruct (calc_next_gen seam_glider_next) as [s'|] eqn:E; [|discriminate Hn].
  injection Hn as H1 H23.
  pose proof (calc_next_gen_frame seam_glider_next s' E) as Hf.
  assert (Hb : next seam_glider_next (IDX 0 20) = 1) by (vm_compute; reflexivity).
  exists s'. split; [reflexivity|]. split; [exact Hf|].
  split; [exact Hb|].
  split.
  { destruct Hf as (_ & _ & Hnb & _). rewrite Hnb; [exact Hb|].
    intros py px Hpy Hpx. unfold IDX, BWIDTH, WIDTH, HEIGHT in *. lia. }
  split; [vm_compute; reflexivity|]. split; [exact H1|].
  split; [vm_compute; reflexivity | exact H23].
Defined.

(** X10: in every run of [main] from its start, whatever the keys, the
    raster values and the library's output, no control point is ever
    reached where [calc_next_gen] would read outside a rule table. Both
    grid buffers always hold only 0/1 cells. *)
Theorem main_never_faults (lib : Lib) (d : Z) (l : list Input) (c : Config) :
  run lib l (start lib d) = Some c ->
  pc c <> PFault /\ binary_state (st (mach c)).
Proof.
  intros H. destruct (MainLoop.reach_inv lib d l c H) as [Hb Hp].
  split; [|exact Hb]. intros E. destruct c as [p m]. cbn [pc mach] in *. subst p. exact Hp.
Qed.

Lemma main_never_faults_witness :
  exists c, run stub_lib [Key 51; Key 103; Kbhit false; Kbhit true] (start stub_lib 21) = Some c /\
  pc c <> PFault /\ binary_state (st (mach c)).
Proof.
  assert (Hpc : option_map pc (run stub_lib [Key 51; Key 103; Kbhit false; Kbhit true]
                                 (start stub_lib 21)) = Some PSimKey)
    by (vm_compute; reflexivity).
  destruct (run stub_lib [Key 51; Key 103; Kbhit false; Kbhit true] (start stub_lib 21))
    as [c|] eqn:E; [|discriminate Hpc].
  exists c. split; [reflexivity|].
  exact (main_never_faults stub_lib 21 [Key 51; Key 103; Kbhit false; Kbhit true] c E).
Defined.

(** X11: in every run of [main], one iteration of the simulation loop
    always succeeds. It replaces the logical grid by its Life successor
    on the 40 x 25 torus, leaves the display buffer showing the new
    grid, and keeps the charset register. It goes back to waiting for a
    key after the loop exactly when [kbhit] reported a key. *)
Theorem main_sim_generation (lib : Lib) (d : Z) (l : list Input) (c : Config) (hit : bool) :
  run lib l (start lib d) = Some c -> pc c = PSim ->
  exists c', step lib (Kbhit hit) c = Some c' /\
    pc c' = (if hit then PSimKey else PSim) /\
    d018 (mach c') = d018 (mach c) /\
    same_cells (logical (current (st (mach c')))) (life (logical (current (st (mach c))))) /\
    (forall x y, in_grid x y ->
       screenBuf (st (mach c')) (y * WIDTH + x) =
       glyph (current (st (mach c')) (IDX (y + 1) (x + 1)))).
Proof.
  intros H Hp. destruct (MainLoop.reach_inv lib d l c H) as [Hb _].
  destruct c as [p m]. cbn [pc mach] in *. subst p.
  destruct (MainLoop.gen_step_ok (update_display (st m)) (MainLoop.binary_display (st m) Hb))
    as (s' & Hg & _ & Hbs' & Hlife).
  exists (mkConfig (if hit then PSimKey else PSim) (mkMachine s' (d018 m))).
  split; [unfold step; cbn [pc mach]; rewrite MainLoop.sim_cycle_gen_step, Hg; reflexivity|].
  cbn [pc mach st d018].
  split; [reflexivity|]. split; [reflexivity|]. split; [exact Hlife | exact Hbs'].
Qed.

Lemma main_sim_generation_witness :
  exists c, run stub_lib [Key 51; Key 103] (start stub_lib 21) = Some c /\ pc c = PSim /\
  exists c', step stub_lib (Kbhit true) c = Some c' /\
    pc c' = PSimKey /\
    d018 (mach c') = d018 (mach c) /\
    same_cells (logical (current (st (mach c')))) (life (logical (current (st (mach c))))) /\
    (forall x y, in_grid x y ->
       screenBuf (st (mach c')) (y * WIDTH + x) =
       glyph (current (st (mach c')) (IDX (y + 1) (x + 1)))).
Proof.
  assert (Hpc : option_map pc (run stub_lib [Key 51; Key 103] (start stub_lib 21)) = Some PSim)
    by (vm_compute; reflexivity).
  destruct (run stub_lib [Key 51; Key 103] (start stub_lib 21)) as [c|] eqn:E;
    [|discriminate Hpc].
  injection Hpc as Hpc.
  exists c. split; [reflexivity|]. split; [exact Hpc|].
  exact (main_sim_generation stub_lib 21 [Key 51; Key 103] c true E Hpc).
Defined.

(** X12: in every run of [main], the [update_display] at the top of each
    simulation iteration puts on the screen the glyph of every logical
    cell of the generation about to be computed from. *)
Theorem main_sim_frame (lib : Lib) (d : Z) (l : list Input) (c : Config) :
  run lib l (start lib d) = Some c -> pc c = PSim ->
  forall x y, in_grid x y ->
    screen (update_display (st (mach c))) (y * WIDTH + x) =
    glyph (current (st (mach c)) (IDX (y + 1) (x + 1))).
Proof.
  intros H Hp x y Hxy. destruct (MainLoop.reach_inv lib d l c H) as [_ Hi].
  destruct c as [p m]. cbn [pc mach] in *. subst p. destruct Hi as [_ Hbs].
  rewrite (display_shows (st m) x y Hxy). exact (Hbs x y Hxy).
Qed.

Lemma main_sim_frame_witness :
  exists c, run stub_lib [Key 51; Key 103] (start stub_lib 21) = Some c /\ pc c = PSim /\
  forall x y, in_grid x y ->
    screen (update_display (st (mach c))) (y * WIDTH + x) =
    glyph (current (st (mach c)) (IDX (y + 1) (x + 1))).
Proof.
  assert (Hpc : option_map pc (run stub_lib [Key 51; Key 103] (start stub_lib 21)) = Some PSim)
    by (vm_compute; reflexivity).
  destruct (run stub_lib [Key 51; Key 103] (start stub_lib 21)) as [c|] eqn:E;
    [|discriminate Hpc].
  injection Hpc as Hpc.
  exists c. split; [reflexivity|]. split; [exact Hpc|].
  exact (main_sim_frame stub_lib 21 [Key 51; Key 103] c E Hpc).
Defined.

(** X13: in every run of [main], the charset bit (bit 1 of $D018) is set
    (lower/uppercase) while the main menu or the presets menu is shown or
    the raster is sampled. It is clear (graphics) in the editor, in the
    simulation loop and after Quit. *)
Theorem main_charset (lib : Lib) (d : Z) (l : list Input) (c : Config) :
  run lib l (start lib d) = Some c ->
  Z.testbit (d018 (mach c)) 1 =
    match pc c with PMenu | PRandom | PPresets => true | _ => false end.
Proof.
  intros H. destruct (MainLoop.reach_inv lib d l c H) as [_ Hp].
  destruct c as [p m]. cbn [pc mach] in *.
  destruct p; first [exact Hp | exact (proj1 Hp) | destruct Hp].
Qed.

Lemma main_charset_witness :
  exists c, run stub_lib [Key 50] (start stub_lib 21) = Some c /\
  Z.testbit (d018 (mach c)) 1 =
    match pc c with PMenu | PRandom | PPresets => true | _ => false end.
Proof.
  assert (Hpc : option_map pc (run stub_lib [Key 50] (start stub_lib 21)) = Some (PEditor 20 12 32))
    by (vm_compute; reflexivity).
  destruct (run stub_lib [Key 50] (start stub_lib 21)) as [c|] eqn:E; [|discriminate Hpc].
  exists c. split; [reflexivity|].
  exact (main_charset stub_lib 21 [Key 50] c E).
Defined.

(** X14: in every run of [main], while the editor waits for a key the
    cursor is inside the grid. The saved character [orig] is the glyph
    of the cell under the cursor. The screen shows the glyph of every
    logical cell, in reverse video (bit 7 set) at the cursor. *)
Theorem main_editor_view (lib : Lib) (d : Z) (l : list Input) (c : Config) (cx cy orig : Z) :
  run lib l (start lib d) = Some c -> pc c = PEditor cx cy orig ->
  1 <= cx <= WIDTH /\ 1 <= cy <= HEIGHT /\
  orig = glyph (current (st (mach c)) (IDX cy cx)) /\
  (forall x y, in_grid x y ->
     screen (st (mach c)) (y * WIDTH + x) =
     if (x =? cx - 1) && (y =? cy - 1)
     then Z.lor (glyph (current (st (mach c)) (IDX (y + 1) (x + 1)))) 128 mod 256
     else glyph (current (st (mach c)) (IDX (y + 1) (x + 1)))).
Proof.
  intros H Hp. pose proof (MainLoop.reach_inv lib d l c H) as Hi.
  destruct c as [p m]. cbn [pc mach] in *. subst p.
  exact (MainLoop.editor_view_inv cx cy orig m Hi).
Qed.

Lemma main_editor_view_witness :
  exists c, run stub_lib [Key 50; Key 32; Key 29] (start stub_lib 21) = Some c /\
  pc c = PEditor 21 12 32 /\
  1 <= 21 <= WIDTH /\ 1 <= 12 <= HEIGHT /\
  32 = glyph (current (st (mach c)) (IDX 12 21)) /\
  (forall x y, in_grid x y ->
     screen (st (mach c)) (y * WIDTH + x) =
     if (x =? 21 - 1) && (y =? 12 - 1)
     then Z.lor (glyph (current (st (mach c)) (IDX (y + 1) (x + 1)))) 128 mod 256
     else glyph (current (st (mach c)) (IDX (y + 1) (x + 1)))).
Proof.
  assert (Hpc : option_map pc (run stub_lib [Key 50; Key 32; Key 29] (start stub_lib 21))
                = Some (PEditor 21 12 32))
    by (vm_compute; reflexivity).
  destruct (run stub_lib [Key 50; Key 32; Key 29] (start stub_lib 21)) as [c|] eqn:E;
    [|discriminate Hpc].
  injection Hpc as Hpc.
  exists c. split; [reflexivity|]. split; [exact Hpc|].
  exact (main_editor_view stub_lib 21 [Key 50; Key 32; Key 29] c 21 12 32 E Hpc).
Defined.

(** X15: in every run of [main], SPACE in the editor flips the cell
    under the cursor from v to 1 - v and keeps the cursor in place. It
    changes no other cell of [current] and leaves [next] unchanged. The
    flipped cell is then shown in reverse video at the cursor. *)
Theorem main_editor_toggle (lib : Lib) (d : Z) (l : list Input) (c : Config)
    (cx cy orig k : Z) :
  run lib l (start lib d) = Some c -> pc c = PEditor cx cy orig -> k mod 256 = 32 ->
  exists c' orig', step lib (Key k) c = Some c' /\ pc c' = PEditor cx cy orig' /\
    current (st (mach c')) (IDX cy cx) = 1 - current (st (mach c)) (IDX cy cx) /\
    (forall i, i <> IDX cy cx -> current (st (mach c')) i = current (st (mach c)) i) /\
    next (st (mach c')) = next (st (mach c)) /\
    screen (st (mach c')) (cursor_pos cx cy) =
      Z.lor (glyph (current (st (mach c')) (IDX cy cx))) 128 mod 256.
Proof.
  intros H Hp Hk. destruct (MainLoop.reach_inv lib d l c H) as [[Hc _] _].
  destruct c as [p m]. cbn [pc mach] in *. subst p.
  assert (Hbin : binary (current (st m) (IDX cy cx))).
  { destruct (MainLoop.reach_inv lib d l _ H) as [_ (_ & Hx & Hy & _)].
    apply Hc. unfold_consts. lia. }
  unfold step. cbn [pc mach]. unfold editor_key. rewrite Hk. cbn [Z.eqb Pos.eqb].
  eexists. eexists. split; [reflexivity|]. split; [reflexivity|].
  unfold editor_top, toggle_cell, on_screen, on_st, set_screen, upd.
  cbn [st current next screen screenBuf mach].
  rewrite !Z.eqb_refl.
  assert (Hv : forall v, binary v -> Z.lxor v 1 mod 256 = 1 - v).
  { intros v [-> | ->]; reflexivity. }
  split; [apply Hv, Hbin|].
  split; [intros i Hi; apply Z.eqb_neq in Hi; rewrite Hi; reflexivity|].
  split; [reflexivity|].
  reflexivity.
Qed.

Lemma main_editor_toggle_witness :
  exists c, run stub_lib [Key 50] (start stub_lib 21) = Some c /\
  pc c = PEditor 20 12 32 /\ 32 mod 256 = 32 /\
  exists c' orig', step stub_lib (Key 32) c = Some c' /\ pc c' = PEditor 20 12 orig' /\
    current (st (mach c')) (IDX 12 20) = 1 - current (st (mach c)) (IDX 12 20) /\
    (forall i, i <> IDX 12 20 -> current (st (mach c')) i = current (st (mach c)) i) /\
    next (st (mach c')) = next (st (mach c)) /\
    screen (st (mach c')) (cursor_pos 20 12) =
      Z.lor (glyph (current (st (mach c')) (IDX 12 20))) 128 mod 256.
Proof.
  assert (Hpc : option_map pc (run stub_lib [Key 50] (start stub_lib 21)) = Some (PEditor 20 12 32))
    by (vm_compute; reflexivity).
  destruct (run stub_lib [Key 50] (start stub_lib 21)) as [c|] eqn:E; [|discriminate Hpc].
  injection Hpc as Hpc.
  assert (Hk : 32 mod 256 = 32) by reflexivity.
  exists c. split; [reflexivity|]. split; [exact Hpc|]. split; [exact Hk|].
  exact (main_editor_toggle stub_lib 21 [Key 50] c 20 12 32 32 E Hpc Hk).
Defined.

(** X16: in every run of [main], a key in the editor that is none of
    SPACE, X/x, C/c or Return (13 or 10) only moves the cursor, to the
    position [move_cursor] gives: the cursor keys wrap, other keys leave
    the cursor in place.  [current], [next] and the charset register are
    unchanged, the character saved for the new cursor is the glyph of the
    cell under it, and the screen shows the glyph of every cell with
    reverse video at the new cursor only: the old cursor cell is restored. *)
Theorem main_editor_other_keys (lib : Lib) (d : Z) (l : list Input) (c : Config)
    (cx cy orig k cx' cy' : Z) :
  run lib l (start lib d) = Some c -> pc c = PEditor cx cy orig ->
  ~ In (k mod 256) [32; 120; 88; 99; 67; 13; 10] ->
  move_cursor (k mod 256) cx cy = (cx', cy') ->
  exists c', step lib (Key k) c = Some c' /\
    pc c' = PEditor cx' cy' (glyph (current (st (mach c)) (IDX cy' cx'))) /\
    current (st (mach c')) = current (st (mach c)) /\
    next (st (mach c')) = next (st (mach c)) /\
    d018 (mach c') = d018 (mach c) /\
    (forall x y, in_grid x y ->
       screen (st (mach c')) (y * WIDTH + x) =
       if (x =? cx' - 1) && (y =? cy' - 1)
       then Z.lor (glyph (current (st (mach c)) (IDX (y + 1) (x + 1)))) 128 mod 256
       else glyph (current (st (mach c)) (IDX (y + 1) (x + 1)))).
Proof.
  intros H Hp Hk Hmv. pose proof (MainLoop.reach_inv lib d l c H) as Hc.
  destruct c as [p m]. cbn [pc mach] in *. subst p.
  set (m1 := mkMachine (st (on_screen (fun b => upd b (cursor_pos cx cy) orig) m)) (d018 m)).
  assert (Hstep : step lib (Key k) (mkConfig (PEditor cx cy orig) m) =
                  Some (editor_top cx' cy' m1)).
  { unfold step. cbn [pc mach]. unfold editor_key. cbn [In] in Hk.
    repeat match goal with |- context [Z.eqb (k mod 256) ?v] =>
      destruct (Z.eqb_spec (k mod 256) v); [exfalso; apply Hk; lia|] end.
    cbn [orb]. rewrite Hmv. reflexivity. }
  pose proof (MainLoop.step_inv lib (Key k) _ _ Hc Hstep) as Hc'.
  unfold editor_top in Hc'. cbv zeta in Hc'.
  destruct (MainLoop.editor_view_inv _ _ _ _ Hc') as (_ & _ & Hg & Hview).
  exists (editor_top cx' cy' m1). split; [exact Hstep|].
  unfold editor_top. cbv zeta. cbn [pc mach st d018].
  split; [rewrite Hg; reflexivity|].
  split; [reflexivity|]. split; [reflexivity|]. split; [reflexivity|].
  exact Hview.
Qed.

Lemma main_editor_other_keys_witness :
  exists c, run stub_lib [Key 50; Key 32] (start stub_lib 21) = Some c /\
  pc c = PEditor 20 12 81 /\
  ~ In (KEY_RIGHT mod 256) [32; 120; 88; 99; 67; 13; 10] /\
  move_cursor (KEY_RIGHT mod 256) 20 12 = (21, 12) /\
  exists c', step stub_lib (Key KEY_RIGHT) c = Some c' /\
    pc c' = PEditor 21 12 (glyph (current (st (mach c)) (IDX 12 21))) /\
    current (st (mach c')) = current (st (mach c)) /\
    next (st (mach c')) = next (st (mach c)) /\
    d018 (mach c') = d018 (mach c) /\
    (forall x y, in_grid x y ->
       screen (st (mach c')) (y * WIDTH + x) =
       if (x =? 21 - 1) && (y =? 12 - 1)
       then Z.lor (glyph (current (st (mach c)) (IDX (y + 1) (x + 1)))) 128 mod 256
       else glyph (current (st (mach c)) (IDX (y + 1) (x + 1)))).
Proof.
  assert (Hpc : option_map pc (run stub_lib [Key 50; Key 32] (start stub_lib 21))
                = Some (PEditor 20 12 81))
    by (vm_compute; reflexivity).
  destruct (run stub_lib [Key 50; Key 32] (start stub_lib 21)) as [c|] eqn:E;
    [|discriminate Hpc].
  injection Hpc as Hpc.
  assert (Hk : ~ In (KEY_RIGHT mod 256) [32; 120; 88; 99; 67; 13; 10]).
  { unfold KEY_RIGHT. change (29 mod 256) with 29. cbn [In]. lia. }
  assert (Hmv : move_cursor (KEY_RIGHT mod 256) 20 12 = (21, 12)) by (vm_compute; reflexivity).
  exists c. split; [reflexivity|]. split; [exact Hpc|]. split; [exact Hk|]. split; [exact Hmv|].
  exact (main_editor_other_keys stub_lib 21 [Key 50; Key 32] c 20 12 81 KEY_RIGHT 21 12
           E Hpc Hk Hmv).
Defined.

(** X17: Return (13 or 10) in the editor starts the simulation. The grid
    drawn is kept in [current], [next] is unchanged, and the graphics
    charset is selected. The screen shows the glyph of every cell with
    no reverse-video cursor left on it. *)
Theorem main_editor_enter (lib : Lib) (c : Config) (cx cy orig k : Z) :
  pc c = PEditor cx cy orig -> (k mod 256 = 13 \/ k mod 256 = 10) ->
  exists c', step lib (Key k) c = Some c' /\ pc c' = PSim /\
    current (st (mach c')) = current (st (mach c)) /\
    next (st (mach c')) = next (st (mach c)) /\
    Z.testbit (d018 (mach c')) 1 = false /\
    (forall x y, in_grid x y ->
       screen (st (mach c')) (y * WIDTH + x) =
       glyph (current (st (mach c)) (IDX (y + 1) (x + 1)))).
Proof.
  intros Hp Hk. destruct c as [p m]. cbn [pc mach] in *. subst p.
  unfold step. cbn [pc mach]. unfold editor_key.
  assert (E : (k mod 256 =? 32) = false /\
              ((k mod 256 =? 120) || (k mod 256 =? 88)) = false /\
              ((k mod 256 =? 99) || (k mod 256 =? 67)) = false /\
              ((k mod 256 =? 13) || (k mod 256 =? 10)) = true).
  { destruct Hk as [-> | ->]; repeat split; reflexivity. }
  destruct E as (-> & -> & -> & ->).
  eexists. split; [reflexivity|]. split; [reflexivity|].
  set (s0 := update_display (build_screen_from_current (st (on_screen
               (fun b => upd b (cursor_pos cx cy) orig) m)))).
  unfold sim_prepare.
  set (m2 := set_uppercase (on_screen (clrscr lib) (mkMachine s0 _))).
  destruct (build_screen_at (st m2)) as (Hbs & _ & Hc & Hn & _).
  destruct (build_screen_at (st (on_screen (fun b => upd b (cursor_pos cx cy) orig) m)))
    as (_ & _ & Hc0 & Hn0 & _).
  assert (Hc2 : current (st m2) = current (st m)) by exact Hc0.
  assert (Hn2 : next (st m2) = next (st m)) by exact Hn0.
  unfold on_st. cbn [st mach d018]. cbn [update_display current next].
  rewrite Hc, Hn, Hc2, Hn2.
  split; [reflexivity|]. split; [reflexivity|].
  split; [apply MainLoop.upper_bit|].
  intros x y Hxy. rewrite (display_shows _ x y Hxy). cbn [update_display screenBuf].
  rewrite (Hbs x y Hxy), Hc, Hc2.
  reflexivity.
Qed.

Lemma main_editor_enter_witness :
  let c := editor_top 20 12 (mkMachine init_state 21) in
  pc c = PEditor 20 12 (screen init_state (cursor_pos 20 12)) /\
  (13 mod 256 = 13 \/ 13 mod 256 = 10) /\
  exists c', step stub_lib (Key 13) c = Some c' /\ pc c' = PSim /\
    current (st (mach c')) = current (st (mach c)) /\
    next (st (mach c')) = next (st (mach c)) /\
    Z.testbit (d018 (mach c')) 1 = false /\
    (forall x y, in_grid x y ->
       screen (st (mach c')) (y * WIDTH + x) =
       glyph (current (st (mach c)) (IDX (y + 1) (x + 1)))).
Proof.
  intros c.
  assert (Hp : pc c = PEditor 20 12 (screen init_state (cursor_pos 20 12))) by reflexivity.
  assert (Hk : 13 mod 256 = 13 \/ 13 mod 256 = 10) by (left; reflexivity).
  split; [exact Hp|]. split; [exact Hk|].
  exact (main_editor_enter stub_lib c 20 12 _ 13 Hp Hk).
Defined.

